(** * AnyRouter sign-in and token reconciliation: a shallow embedding

    The development follows [src/api/ai-key.js]: the inventory client
    ([addKey], [addKeys], [updateKeyInfo]) and the class [AnyRouterSignIn]
    ([getTokens], [deleteToken],
    [createToken], [updateToken], [loginAndGetSession], [processAccounts]).

    Conventions.
    - JavaScript numbers that hold quotas and identifiers are integers in the
      gateway's fixed-point unit; they are modelled as [Z].  The one division
      of the program (a quota by 500000) is modelled in [Q], the exact value
      that the floating-point quotient rounds.
    - An object member that may be absent ([undefined]) is an [option].
    - Strings are byte strings holding UTF-8; [startsWith] on a well-formed
      string agrees with the byte-wise prefix test.  The [.length] of the
      source counts UTF-16 code units; [length_] computes that count from the
      bytes.  A string of the source that holds an unpaired surrogate has no
      UTF-8 form and no counterpart here.
    - [console.log] is not modelled.
    - Every [await] on the browser, on the page or on the inventory client is
      a call to the outside world: it is recorded in a trace together with
      the answer it got, and it may raise. *)

From Stdlib Require Import ZArith List String Ascii Bool Lia QArith DecimalString.
Import ListNotations.
Local Open Scope string_scope.
Local Open Scope list_scope.
Local Open Scope Z_scope.

Set Implicit Arguments.

(* ================================================================= *)
(** ** JavaScript idioms *)

(** [String(n)] for an integer. *)
Definition String_ (n : Z) : string := NilZero.string_of_int (Z.to_int n).

(** Truthiness of a possibly absent number: [undefined] and [0] are falsy. *)
Definition truthy_num (x : option Z) : bool :=
  match x with
  | Some n => negb (n =? 0)
  | None => false
  end.

(** Truthiness of a possibly absent string: [undefined] and [''] are falsy. *)
Definition truthy_str (x : option string) : bool :=
  match x with
  | Some s => negb (s =? EmptyString)%string
  | None => false
  end.

(** [x || d] on numbers. *)
Definition num_or (x : option Z) (d : Z) : Z :=
  match x with
  | Some n => if n =? 0 then d else n
  | None => d
  end.

(** [x || d] on strings. *)
Definition str_or (x : option string) (d : string) : string :=
  match x with
  | Some s => if (s =? EmptyString)%string then d else s
  | None => d
  end.

(** [x === y] where [y] is always a number. *)
Definition strict_eq (x : option Z) (y : Z) : bool :=
  match x with
  | Some n => n =? y
  | None => false
  end.

(** The UTF-16 code units a UTF-8 byte stands for: a byte below 0x80 and the
    lead byte of a sequence of two or three bytes give one unit, the lead
    byte of a sequence of four bytes (a character beyond U+FFFF, a surrogate
    pair in the source) gives two, and a continuation byte gives none. *)
Definition units (c : ascii) : nat :=
  let b := nat_of_ascii c in
  if (b <? 128)%nat then 1%nat
  else if (b <? 192)%nat then 0%nat
  else if (b <? 240)%nat then 1%nat
  else 2%nat.

(** [s.length]. *)
Fixpoint length_ (s : string) : nat :=
  match s with
  | EmptyString => 0%nat
  | String c s' => (units c + length_ s')%nat
  end.

(** [name.startsWith(prefix)]. *)
Definition startsWith (name prefix : string) : bool := String.prefix prefix name.

(** The resale marker of line 944. *)
Definition sell_prefix : string := "出售_".

(** The fixed-point unit of a quota: 500000 units are one dollar. *)
Definition quota_unit : Z := 500000.

(* ================================================================= *)
(** ** Data model *)

(** A token as the gateway returns it.  [rest] stands for the members the
    program never reads (owner, status, timestamps, ...); they travel with the
    object when it is sent back by [updateToken]. *)
Module Token.
Record t := mk {
  id : Z;
  key : string;
  name : string;
  unlimited_quota : bool;
  used_quota : Z;
  remain_quota : option Z;
  rest : list (string * string)
}.

(** [{...token, remain_quota: q}] and [token.remain_quota = q]. *)
Definition set_remain_quota (q : option Z) (tk : t) : t :=
  mk (id tk) (key tk) (name tk) (unlimited_quota tk) (used_quota tk) q (rest tk).
End Token.

(** An entry of [accountInfo.tokens]: the declared intent for one token. *)
Module TokenConfig.
Record t := mk {
  id : option Z;
  name : option string;
  is_deleted : bool;
  unlimited_quota : bool;
  remain_quota : option Z;
  supplement_quota : option Z
}.
End TokenConfig.

(** An entry of [pendingSellTokenNames]. *)
Module Pending.
Record t := mk {
  name : string;
  remain_quota : option Z
}.
End Pending.

(** The body of the token creation request (lines 510-525). *)
Module RequestBody.
Record t := mk {
  name : string;
  expired_time : Z;
  model_limits_enabled : bool;
  model_limits : string;
  allow_ips : string;
  group : string;
  unlimited_quota : option bool;
  remain_quota : option Z
}.
End RequestBody.

(** A key handed to [addKeys]. *)
Module KeyData.
Record t := mk {
  key : string;
  key_type : string;
  quota : option Q;
  source_name : option string;
  account_id : option string;
  is_sold : option bool
}.
End KeyData.

(** A key as [addKeys] posts it, defaults filled in (lines 215-232). *)
Module RequestKey.
Record t := mk {
  key : string;
  key_type : string;
  quota : Q;
  is_sold : bool;
  source_name : option string;
  account_id : option string
}.
End RequestKey.

(** What [addKeys] returns. *)
Module ApiResult.
Record t := mk {
  success : bool;
  error : string
}.
End ApiResult.

(** A token as surfaced to the caller (lines 1052-1060). *)
Module TokenView.
Record t := mk {
  id : Z;
  key : string;
  name : string;
  unlimited_quota : bool;
  used_quota : Z;
  remain_quota : option Z;
  supplement_quota : Z
}.
End TokenView.

(** The user object of the gateway ([data.data] of login and of
    [/api/user/self]), with the [tokens] member the run adds to it. *)
Module UserData.
Record t := mk {
  id : Z;
  username : string;
  email : string;
  quota : Z;
  used_quota : Z;
  aff_code : string;
  aff_quota : option Z;
  tokens : option (list TokenView.t)
}.

Definition set_quotas (q : Z) (aff : option Z) (u : t) : t :=
  mk (id u) (username u) (email u) q (used_quota u) (aff_code u) aff (tokens u).

Definition set_tokens (tks : option (list TokenView.t)) (u : t) : t :=
  mk (id u) (username u) (email u) (quota u) (used_quota u) (aff_code u)
     (aff_quota u) tks.
End UserData.

(** The optional third argument of [loginAndGetSession]. *)
Module AccountInfo.
Record t := mk {
  _id : option string;
  username : option string;
  tokens : option (list TokenConfig.t)
}.
End AccountInfo.

(** An element of the array given to [processAccounts]. *)
Module Account.
Record t := mk {
  username : string;
  password : string;
  tokens : option (list TokenConfig.t)
}.
End Account.

(** What [loginAndGetSession] returns when it does not return [null]. *)
Module Session.
Record t := mk {
  session : string;
  apiUser : string;
  userInfo : UserData.t
}.
End Session.

(** An element of the array [processAccounts] returns. *)
Module RunResult.
Record t := mk {
  username : string;
  success : bool;
  data : option Session.t
}.
End RunResult.

(* ================================================================= *)
(** ** The outside world *)

(** What a [page.evaluate] of a [fetch] hands back: the in-page [catch]
    gives [{error}], a completed exchange gives the HTTP status and the
    members [success], [message] and [data] of the JSON body.  A body that
    is the JSON value [null] has no members: reading one from it raises a
    TypeError in the caller. *)
Inductive response (D : Type) : Type :=
| Failed (error : string)
| Replied (status : Z) (success : bool) (message : string) (data : D)
| Nulled (status : Z).

Arguments Failed {D} error.
Arguments Replied {D} status success message data.
Arguments Nulled {D} status.

(** The error of reading a member of [null]. *)
Definition null_read : string := "TypeError: Cannot read properties of null".

(** [response.ok]. *)
Definition http_ok (status : Z) : bool := (200 <=? status) && (status <=? 299).

(** A raised JavaScript error, by its message. *)
Definition exn : Type := string.

(** The calls the program makes, indexed by what they resolve to. *)
Inductive call : Type -> Type :=
| chromium_launch : call unit
| browser_newContext : call unit
| applyStealthToContext : call unit
| context_newPage : call unit
| page_goto (url : string) : call unit
| fetch_login (username password : string) : call (response (option UserData.t))
| context_cookies : call (list (string * string))
| fetch_sign_in (apiUser : Z) : call (response unit)
| fetch_self (apiUser : Z) : call (response (option UserData.t))
| fetch_aff_transfer (apiUser : string) (affQuota : Z) : call (response unit)
| fetch_token_list (apiUser : string) : call (response (option (list Token.t)))
| fetch_token_delete (apiUser : string) (tokenId : Z) : call (response unit)
| fetch_token_create (apiUser : string) (requestBody : RequestBody.t)
    : call (response unit)
| fetch_token_update (apiUser : string) (tokenData : Token.t)
    : call (response (option Token.t))
| post_addKeys (keys : list RequestKey.t) : call ApiResult.t
| page_isClosed : call bool
| page_close : call unit
| context_close : call unit
| browser_close : call unit
| setTimeout (min max : Z) : call unit.

(** A call with the answer it got: [inl e] when it raised [e]. *)
Inductive event : Type :=
| Ev (R : Type) (c : call R) (r : exn + R).

Arguments Ev {R} c r.

(** The three local variables of [loginAndGetSession] that the [finally]
    block reads: [true] once assigned. *)
Record locals := mkLocals {
  browser : bool;
  context : bool;
  page : bool
}.

(* ================================================================= *)
(** ** A scripted world

    One concrete world, used to run the program on examples: every answer is
    fixed by a script.  The token list answers are consumed one per call. *)

Module Mock.
Record t := mk {
  launch_fails : bool;
  login : string -> response (option UserData.t);
  cookies : list (string * string);
  self : response (option UserData.t);
  transfer : response unit;
  token_lists : list (list Token.t);
  create_ok : bool;
  delete_ok : bool;
  update : Token.t -> response (option Token.t);
  post : ApiResult.t;
  page_close_fails : bool
}.

Definition next_list (w : t) : t :=
  mk (launch_fails w) (login w) (cookies w) (self w) (transfer w)
     (tl (token_lists w)) (create_ok w) (delete_ok w) (update w) (post w)
     (page_close_fails w).

Definition verdict (ok : bool) : response unit :=
  if ok then Replied 200 true EmptyString tt else Replied 200 false "rejected" tt.

Definition handle (R : Type) (c : call R) (w : t) : (exn + R) * t :=
  match c in call R return (exn + R) * t with
  | chromium_launch =>
      (if launch_fails w then inl "browser could not start" else inr tt, w)
  | browser_newContext => (inr tt, w)
  | applyStealthToContext => (inr tt, w)
  | context_newPage => (inr tt, w)
  | page_goto _ => (inr tt, w)
  | fetch_login username _ => (inr (login w username), w)
  | context_cookies => (inr (cookies w), w)
  | fetch_sign_in _ => (inr (Replied 200 true EmptyString tt), w)
  | fetch_self _ => (inr (self w), w)
  | fetch_aff_transfer _ _ => (inr (transfer w), w)
  | fetch_token_list _ =>
      (inr (Replied 200 true EmptyString (Some (hd [] (token_lists w)))), next_list w)
  | fetch_token_delete _ _ => (inr (verdict (delete_ok w)), w)
  | fetch_token_create _ _ => (inr (verdict (create_ok w)), w)
  | fetch_token_update _ tokenData => (inr (update w tokenData), w)
  | post_addKeys _ => (inr (post w), w)
  | page_isClosed => (inr false, w)
  | page_close =>
      (if page_close_fails w then inl "Target crashed" else inr tt, w)
  | context_close => (inr tt, w)
  | browser_close => (inr tt, w)
  | setTimeout _ _ => (inr tt, w)
  end.

(** The examples: one user, the tokens of the gateway, the declared
    intents, the scripts. *)
Definition alice : UserData.t :=
  UserData.mk 7 "alice" "alice@example.org" 1000 0 "a1b2" (Some 200) None.

Definition sale : Token.t := Token.mk 1 "sk-abc" "出售_x" false 0 (Some 100) [].

(** A token of the same name that carries no key. *)
Definition blank : Token.t := Token.mk 2 EmptyString "出售_x" false 0 (Some 100) [].

Definition topUp : TokenConfig.t :=
  TokenConfig.mk (Some 1) None false false None (Some 50).


Definition forSale : TokenConfig.t :=
  TokenConfig.mk None (Some "出售_x") false false (Some 500000) None.

Definition unnamed : TokenConfig.t :=
  TokenConfig.mk None None false false None None.

Definition shop (tokens : list TokenConfig.t) : AccountInfo.t :=
  AccountInfo.mk (Some "acc-1") (Some "alice") (Some tokens).

Definition candidate : Pending.t := Pending.mk "出售_x" (Some 500000).

(** Everybody but bob logs in; the transfer call fails in the page; an
    update is confirmed with 149 whatever was asked. *)
Definition script (lists : list (list Token.t)) (create_ok page_close_fails : bool) : t :=
  mk false
     (fun username =>
        if (username =? "bob")%string
        then Replied 401 false "wrong password" None
        else Replied 200 true EmptyString (Some alice))
     [("session", "s3cr3t")]
     (Replied 200 true EmptyString (Some alice))
     (Failed "net::ERR_CONNECTION_RESET")
     lists create_ok true
     (fun tokenData =>
        Replied 200 true EmptyString (Some (Token.set_remain_quota (Some 149) tokenData)))
     (ApiResult.mk true EmptyString)
     page_close_fails.

Definition trio : list Account.t :=
  [Account.mk "alice" "pw" None; Account.mk "bob" "pw" None;
   Account.mk "carol" "pw" None].

(** A world in which the browser does not start. *)
Definition stalled : t :=
  mk true (fun _ => Failed "unreachable") [] (Failed "unreachable")
     (Failed "unreachable") [] false false (fun _ => Failed "unreachable")
     (ApiResult.mk false "unreachable") false.

(** A world in which the profile cannot be read. *)
Definition unread : t :=
  mk false (fun _ => Replied 200 true EmptyString (Some alice))
     [("session", "s3cr3t")] (Replied 500 false "internal error" None)
     (Failed "unreachable") [[sale]] true true
     (fun _ => Failed "unreachable") (ApiResult.mk true EmptyString) false.

(** The same answers, but for a page that reports itself closed. *)
Definition handle_closed (R : Type) (c : call R) (w : t) : (exn + R) * t :=
  match c in call R return (exn + R) * t with
  | page_isClosed => (inr true, w)
  | c' => handle c' w
  end.

(** The same answers, but for a reward call that comes back as an HTTP
    success with the body [null]. *)
Definition handle_null (R : Type) (c : call R) (w : t) : (exn + R) * t :=
  match c in call R return (exn + R) * t with
  | fetch_sign_in _ => (inr (Nulled 200), w)
  | c' => handle c' w
  end.

(** A source name of 67 characters, each of three bytes in UTF-8. *)
Definition wideName : string :=
  "出售出售出售出售出售出售出售出售出售出售出售出售出售出售出售出售出售出售出售出售出售出售出售出售出售出售出售出售出售出售出售出售出售出".

Definition goodKey : KeyData.t :=
  KeyData.mk "sk-abc" "anyrouter" (Some 1%Q) (Some wideName) None None.

(** The key type is not one of the three. *)
Definition oddKey : KeyData.t :=
  KeyData.mk "sk-def" "openrouter" None None None None.
End Mock.

(* ================================================================= *)
(** ** The program, over an arbitrary world *)

(** How a computation ends. *)
Inductive outcome (A : Type) : Type :=
| Returned (a : A)
| Threw (e : exn).

Arguments Returned {A} a.
Arguments Threw {A} e.

Section Program.

(** The world answers every call and moves on; nothing is assumed of it. *)
Variable World : Type.
Variable handle : forall R : Type, call R -> World -> (exn + R) * World.

Record state := mkState {
  world : World;
  trace : list event;
  vars : locals
}.

(** Computations: state passing with exceptions. *)
Definition M (A : Type) : Type := state -> outcome A * state.

Definition ret {A} (a : A) : M A := fun s => (Returned a, s).

Definition throw {A} (e : exn) : M A := fun s => (Threw e, s).

Definition bind {A B} (m : M A) (k : A -> M B) : M B := fun s =>
  match m s with
  | (Returned a, s') => k a s'
  | (Threw e, s') => (Threw e, s')
  end.

Notation "x <- m ;; k" := (bind m (fun x => k))
  (at level 61, m at next level, right associativity).
Notation "m ;; k" := (bind m (fun _ => k))
  (at level 61, right associativity).

(** [try { m } catch (e) { h e }]. *)
Definition try_catch {A} (m : M A) (h : exn -> M A) : M A := fun s =>
  match m s with
  | (Returned a, s') => (Returned a, s')
  | (Threw e, s') => h e s'
  end.

(** [try { m } finally { f }]: [f] always runs; if it raises, its error
    replaces the outcome of [m]. *)
Definition try_finally {A} (m : M A) (f : M unit) : M A := fun s =>
  match m s with
  | (o, s') =>
      match f s' with
      | (Returned _, s'') => (o, s'')
      | (Threw e, s'') => (Threw e, s'')
      end
  end.

(** [await c]: ask the world, record the exchange. *)
Definition perform {R} (c : call R) : M R := fun s =>
  match handle c (world s) with
  | (r, w) =>
      (match r with inr v => Returned v | inl e => Threw e end,
       mkState w (trace s ++ [Ev c r]) (vars s))
  end.

(** Assignments to the three locals. *)
Definition assign (f : locals -> locals) : M unit := fun s =>
  (Returned tt, mkState (world s) (trace s) (f (vars s))).

Definition set_browser (l : locals) : locals := mkLocals true (context l) (page l).
Definition set_context (l : locals) : locals := mkLocals (browser l) true (page l).
Definition set_page (l : locals) : locals := mkLocals (browser l) (context l) true.
Definition all_null (_ : locals) : locals := mkLocals false false false.

Definition read_vars : M locals := fun s => (Returned (vars s), s).

Definition when (b : bool) (m : M unit) : M unit := if b then m else ret tt.

(** [randomDelay] (lines 386-389): a timer promise; it cannot reject, so
    whatever the world answers the computation goes on. *)
Definition randomDelay (min max : Z) : M unit :=
  try_catch (perform (setTimeout min max)) (fun _ => ret tt).

Definition baseUrl : string := "https://anyrouter.top".

(* ----------------------------------------------------------------- *)
(** *** The inventory client: [addKeys] (lines 144-235) *)

Definition key_types : list string := ["coderouter"; "anyrouter"; "other"].

Definition includes (l : list string) (x : string) : bool :=
  existsb (String.eqb x) l.

Definition Qnegative (q : Q) : bool := (Qnum q <? 0)%Z.

Definition rejected (msg : string) : ApiResult.t := ApiResult.mk false msg.

(** The validation loop of lines 168-212: the first offending key, if any,
    decides the error; [i] is the zero-based index of the head of [keys]. *)
Fixpoint validateKeys (i : Z) (keys : list KeyData.t) : option string :=
  match keys with
  | [] => None
  | keyData :: keys' =>
      let nth := ("第" ++ String_ (i + 1) ++ "个Key")%string in
      if (KeyData.key keyData =? EmptyString)%string then
        Some (nth ++ "的API Key不能为空")%string
      else if (KeyData.key_type keyData =? EmptyString)%string then
        Some (nth ++ "的类型不能为空")%string
      else if (500 <? Z.of_nat (length_ (KeyData.key keyData))) then
        Some (nth ++ "的长度必须在1-500个字符之间")%string
      else if negb (includes key_types (KeyData.key_type keyData)) then
        Some (nth ++ "的类型必须为 coderouter、anyrouter 或 other")%string
      else if match KeyData.quota keyData with
              | Some q => Qnegative q
              | None => false
              end then
        Some (nth ++ "的额度必须为非负数")%string
      else if match KeyData.source_name keyData with
              | Some n => 200 <? Z.of_nat (length_ n)
              | None => false
              end then
        Some (nth ++ "的来源名称不能超过200个字符")%string
      else validateKeys (i + 1) keys'
  end.

(** Lines 215-232. *)
Definition requestKey (keyData : KeyData.t) : RequestKey.t :=
  RequestKey.mk
    (KeyData.key keyData)
    (KeyData.key_type keyData)
    (match KeyData.quota keyData with Some q => q | None => 0%Q end)
    (match KeyData.is_sold keyData with Some b => b | None => false end)
    (KeyData.source_name keyData)
    (KeyData.account_id keyData).

(** [handleApiResponse(apiClient.post(...))] lives in [client.js]; it is the
    world's answer to [post_addKeys]. *)
Definition addKeys (keys : list KeyData.t) : M ApiResult.t :=
  if (Z.of_nat (List.length keys) =? 0) then
    ret (rejected "keys数组不能为空")
  else if (100 <? Z.of_nat (List.length keys)) then
    ret (rejected "单次最多添加100个Key")
  else
    match validateKeys 0 keys with
    | Some msg => ret (rejected msg)
    | None => perform (post_addKeys (map requestKey keys))
    end.

(* ----------------------------------------------------------------- *)
(** *** The four token calls (lines 397-627)

    Each reads [result.data.success], and on a refusal [result.data.message]:
    a [null] body raises there, inside the [try] of the call. *)

(** Lines 397-442. *)
Definition getTokens (apiUser : string) : M (list Token.t) :=
  try_catch
    (result <- perform (fetch_token_list apiUser) ;;
     match result with
     | Failed _ => ret []
     | Replied status success _ data =>
         if (status =? 200) && success then
           ret (match data with Some tokens => tokens | None => [] end)
         else ret []
     | Nulled status => if status =? 200 then throw null_read else ret []
     end)
    (fun _ => ret []).

(** Lines 451-496. *)
Definition deleteToken (apiUser : string) (tokenId : Z) : M bool :=
  try_catch
    (result <- perform (fetch_token_delete apiUser tokenId) ;;
     match result with
     | Failed _ => ret false
     | Replied status success _ _ =>
         if (status =? 200) && success then ret true else ret false
     | Nulled _ => throw null_read
     end)
    (fun _ => ret false).

(** Lines 510-525: the request body built from a token configuration. *)
Definition requestBody (tokenConfig : TokenConfig.t) : RequestBody.t :=
  RequestBody.mk
    (str_or (TokenConfig.name tokenConfig) "dw")
    (-1) false EmptyString EmptyString "default"
    (if TokenConfig.unlimited_quota tokenConfig then Some true else None)
    (if TokenConfig.unlimited_quota tokenConfig then None
     else Some (num_or (TokenConfig.remain_quota tokenConfig) 500000)).

(** Lines 505-571. *)
Definition createToken (apiUser : string) (tokenConfig : TokenConfig.t) : M bool :=
  try_catch
    (result <- perform (fetch_token_create apiUser (requestBody tokenConfig)) ;;
     match result with
     | Failed _ => ret false
     | Replied status success _ _ =>
         if (status =? 200) && success then ret true else ret false
     | Nulled _ => throw null_read
     end)
    (fun _ => ret false).

(** Lines 580-627. *)
Definition updateToken (apiUser : string) (tokenData : Token.t) : M (option Token.t) :=
  try_catch
    (result <- perform (fetch_token_update apiUser tokenData) ;;
     match result with
     | Failed _ => ret None
     | Replied status success _ data =>
         if (status =? 200) && success then ret data else ret None
     | Nulled _ => throw null_read
     end)
    (fun _ => ret None).

(* ----------------------------------------------------------------- *)
(** *** [loginAndGetSession], block by block (lines 636-1092) *)

(** Lines 873-917: the referral bonus.  The answer of the transfer call is
    only logged; the two assignments of lines 907-908 come first. *)
Definition settleBonus (apiUser : Z) (userData : UserData.t) : M UserData.t :=
  match UserData.aff_quota userData with
  | Some aff_quota =>
      if 0 <? aff_quota then
        transferResult <- perform (fetch_aff_transfer (String_ apiUser) aff_quota) ;;
        ret (UserData.set_quotas (UserData.quota userData + aff_quota) (Some 0) userData)
      else ret userData
  | None => ret userData
  end.

(** The object literal of lines 937-941. *)
Definition creationConfig (tokenConfig : TokenConfig.t) : TokenConfig.t :=
  TokenConfig.mk None (TokenConfig.name tokenConfig) false
    (TokenConfig.unlimited_quota tokenConfig)
    (TokenConfig.remain_quota tokenConfig) None.

(** Line 944, without [createSuccess]. *)
Definition isSellToken (tokenConfig : TokenConfig.t) : bool :=
  match TokenConfig.name tokenConfig with
  | Some name => negb (name =? EmptyString)%string && startsWith name sell_prefix
  | None => false
  end.

(** Lines 945-948. *)
Definition pendingOf (tokenConfig : TokenConfig.t) : Pending.t :=
  Pending.mk (str_or (TokenConfig.name tokenConfig) EmptyString)
             (TokenConfig.remain_quota tokenConfig).

(** Lines 928-951: the loop over [accountInfo.tokens];
    [pendingSellTokenNames] is threaded through. *)
Fixpoint manageTokens (apiUser : string) (tokens : list TokenConfig.t)
    (pendingSellTokenNames : list Pending.t) : M (list Pending.t) :=
  match tokens with
  | [] => ret pendingSellTokenNames
  | tokenConfig :: tokens' =>
      if truthy_num (TokenConfig.id tokenConfig) && TokenConfig.is_deleted tokenConfig then
        (* a truthy id is a number: [num_or id 0] is that number *)
        _ <- deleteToken apiUser (num_or (TokenConfig.id tokenConfig) 0) ;;
        manageTokens apiUser tokens' pendingSellTokenNames
      else if negb (truthy_num (TokenConfig.id tokenConfig)) then
        createSuccess <- createToken apiUser (creationConfig tokenConfig) ;;
        if createSuccess && isSellToken tokenConfig then
          manageTokens apiUser tokens' (pendingSellTokenNames ++ [pendingOf tokenConfig])
        else
          manageTokens apiUser tokens' pendingSellTokenNames
      else
        manageTokens apiUser tokens' pendingSellTokenNames
  end.

(** The filter of lines 970-972. *)
Definition needsSupplement (t : TokenConfig.t) : bool :=
  truthy_num (TokenConfig.supplement_quota t)
  && match TokenConfig.supplement_quota t with
     | Some q => 0 <? q
     | None => false
     end.

(** The predicate of line 981. *)
Definition sameId (configToken : TokenConfig.t) (t : Token.t) : bool :=
  strict_eq (TokenConfig.id configToken) (Token.id t).

(** An assignment to a member of the object [find] returned: the array holds
    that very object, so its first element satisfying [p] changes. *)
Fixpoint assign_found (p : Token.t -> bool) (f : Token.t -> Token.t)
    (tokens : list Token.t) : list Token.t :=
  match tokens with
  | [] => []
  | t :: tokens' => if p t then f t :: tokens' else t :: assign_found p f tokens'
  end.

(** Lines 983-993. *)
Definition updatedTokenData (matchedToken : Token.t) (configToken : TokenConfig.t)
    : Token.t :=
  Token.set_remain_quota
    (Some (num_or (Token.remain_quota matchedToken) 0
           + num_or (TokenConfig.supplement_quota configToken) 0))
    matchedToken.

(** Lines 979-1012: the loop over [tokensToSupplement]; the array [tokens]
    is threaded through because line 1002 writes into it. *)
Fixpoint supplementTokens (apiUser : string) (tokensToSupplement : list TokenConfig.t)
    (tokens : list Token.t) : M (list Token.t) :=
  match tokensToSupplement with
  | [] => ret tokens
  | configToken :: rest =>
      match find (sameId configToken) tokens with
      | Some matchedToken =>
          updateResult <- updateToken apiUser (updatedTokenData matchedToken configToken) ;;
          match updateResult with
          | Some updated =>
              supplementTokens apiUser rest
                (assign_found (sameId configToken)
                   (Token.set_remain_quota (Token.remain_quota updated)) tokens)
          | None => supplementTokens apiUser rest tokens
          end
      | None => supplementTokens apiUser rest tokens
      end
  end.

(** The configuration of the fallback token, line 961. *)
Definition fallbackConfig : TokenConfig.t :=
  TokenConfig.mk None None false true None None.

(** [accountInfo && accountInfo.tokens && Array.isArray(accountInfo.tokens)]. *)
Definition configuredTokens (accountInfo : option AccountInfo.t)
    : option (list TokenConfig.t) :=
  match accountInfo with
  | Some info => AccountInfo.tokens info
  | None => None
  end.

(** Lines 957-1015: fetch the live list; when it is empty create the
    fallback token, otherwise supplement. *)
Definition fetchTokens (apiUser : string) (accountInfo : option AccountInfo.t)
    : M (list Token.t) :=
  tokens <- getTokens apiUser ;;
  if (Z.of_nat (List.length tokens) =? 0) then
    created <- createToken apiUser fallbackConfig ;;
    if created then getTokens apiUser else ret tokens
  else
    match configuredTokens accountInfo with
    | Some configured => supplementTokens apiUser (filter needsSupplement configured) tokens
    | None => ret tokens
    end.

(** The predicate of line 1026. *)
Definition sameName (pending : Pending.t) (t : Token.t) : bool :=
  (Token.name t =? Pending.name pending)%string.

(** Line 1028. *)
Definition dollars (remain_quota : option Z) : Q :=
  if truthy_num remain_quota
  then (inject_Z (num_or remain_quota 0) / inject_Z quota_unit)%Q
  else 0%Q.

(** Lines 1029-1036. *)
Definition keyRecord (accountInfo : AccountInfo.t) (matchedToken : Token.t)
    (pending : Pending.t) : KeyData.t :=
  KeyData.mk
    (Token.key matchedToken)
    "anyrouter"
    (Some (dollars (Pending.remain_quota pending)))
    (Some (str_or (AccountInfo.username accountInfo) EmptyString ++ "&" ++ Pending.name pending)%string)
    (AccountInfo._id accountInfo)
    (Some false).

(** Lines 1025-1038: what one pending name adds to [keysToUpload]. *)
Definition keysFor (accountInfo : AccountInfo.t) (tokens : list Token.t)
    (pending : Pending.t) : list KeyData.t :=
  match find (sameName pending) tokens with
  | Some matchedToken =>
      if negb (Token.key matchedToken =? EmptyString)%string
      then [keyRecord accountInfo matchedToken pending]
      else []
  | None => []
  end.

Definition keysToUpload (accountInfo : AccountInfo.t) (tokens : list Token.t)
    (pendingSellTokenNames : list Pending.t) : list KeyData.t :=
  flat_map (keysFor accountInfo tokens) pendingSellTokenNames.

(** Lines 1017-1048.  [pendingSellTokenNames] is filled only under a
    non-null [accountInfo]; were it null, line 1034 would raise as soon as a
    pending name matched a keyed token. *)
Definition uploadSellTokens (accountInfo : option AccountInfo.t)
    (tokens : list Token.t) (pendingSellTokenNames : list Pending.t) : M unit :=
  if (0 <? Z.of_nat (List.length pendingSellTokenNames)) then
    match accountInfo with
    | Some info =>
        let keys := keysToUpload info tokens pendingSellTokenNames in
        if (0 <? Z.of_nat (List.length keys)) then
          uploadResult <- addKeys keys ;;
          ret tt
        else ret tt
    | None =>
        if existsb (fun pending =>
                      match find (sameName pending) tokens with
                      | Some matchedToken => negb (Token.key matchedToken =? EmptyString)%string
                      | None => false
                      end) pendingSellTokenNames
        then throw "TypeError: Cannot read properties of null"
        else ret tt
    end
  else ret tt.

(** Lines 1052-1060. *)
Definition tokenView (token : Token.t) : TokenView.t :=
  TokenView.mk (Token.id token) (Token.key token) (Token.name token)
    (Token.unlimited_quota token) (Token.used_quota token)
    (Token.remain_quota token) 0.

(** Lines 1051-1062. *)
Definition surfaceTokens (tokens : list Token.t) (userData : UserData.t) : UserData.t :=
  if (0 <? Z.of_nat (List.length tokens))
  then UserData.set_tokens (Some (map tokenView tokens)) userData
  else userData.

(** Lines 864-1062: everything done under a fetched profile. *)
Definition withProfile (apiUser : Z) (accountInfo : option AccountInfo.t)
    (userData : UserData.t) : M UserData.t :=
  userData <- settleBonus apiUser userData ;;
  pendingSellTokenNames <-
    match configuredTokens accountInfo with
    | Some configured => manageTokens (String_ apiUser) configured []
    | None => ret []
    end ;;
  tokens <- fetchTokens (String_ apiUser) accountInfo ;;
  uploadSellTokens accountInfo tokens pendingSellTokenNames ;;
  ret (surfaceTokens tokens userData).

(** Lines 647-672: the browser, its context and its page; each local is
    assigned once its [await] has resolved. *)
Definition openPage : M unit :=
  perform chromium_launch ;;
  assign set_browser ;;
  perform browser_newContext ;;
  assign set_context ;;
  perform applyStealthToContext ;;
  perform context_newPage ;;
  assign set_page.

(** Line 823: [signInResult.success && signInResult.data.success] decides
    only what is logged, but reading [success] from a [null] body raises;
    line 827 reads [message] through [?.] and cannot. *)
Definition signedIn (signInResult : response unit) : M bool :=
  match signInResult with
  | Failed _ => ret false
  | Replied status success _ _ => ret (http_ok status && success)
  | Nulled status => if http_ok status then throw null_read else ret false
  end.

(** Lines 674-1077: from the home page to the returned object. *)
Definition signIn (username password : string) (accountInfo : option AccountInfo.t)
    : M (option Session.t) :=
  perform (page_goto baseUrl) ;;
  randomDelay 2000 3000 ;;
  loginResult <- perform (fetch_login username password) ;;
  match loginResult with
  | Failed _ => ret None
  | Nulled status => if negb (http_ok status) then ret None else throw null_read
  | Replied status success _ data =>
      if negb (http_ok status) then ret None
      else if negb success then ret None
      else
        match data with
        | None => ret None
        | Some loginData =>
            let apiUser := UserData.id loginData in
            if apiUser =? 0 then ret None
            else
              cookies <- perform context_cookies ;;
              match find (fun c => (fst c =? "session")%string) cookies with
              | None => ret None
              | Some sessionCookie =>
                  signInResult <- perform (fetch_sign_in apiUser) ;;
                  signedIn signInResult ;;
                  userInfoResult <- perform (fetch_self apiUser) ;;
                  userData <-
                    match userInfoResult with
                    | Failed _ => ret loginData
                    | Replied status' success' _ data' =>
                        if http_ok status' && success' then
                          match data' with
                          | Some userData => withProfile apiUser accountInfo userData
                          | None => throw "TypeError: Cannot read properties of undefined"
                          end
                        else ret loginData
                    | Nulled status' =>
                        if http_ok status' then throw null_read else ret loginData
                    end ;;
                  ret (Some (Session.mk (snd sessionCookie) (String_ apiUser) userData))
              end
        end
  end.

(** Lines 644-1077: the body of the [try]. *)
Definition loginBody (username password : string) (accountInfo : option AccountInfo.t)
    : M (option Session.t) :=
  openPage ;;
  signIn username password accountInfo.

(** Lines 1081-1091: the [finally] block. *)
Definition cleanup : M unit :=
  try_catch
    (l <- read_vars ;;
     (if page l then
        closed <- perform page_isClosed ;;
        when (negb closed) (perform page_close)
      else ret tt) ;;
     when (context l) (perform context_close) ;;
     when (browser l) (perform browser_close))
    (fun _ => ret tt).

(** Lines 636-1092. *)
Definition loginAndGetSession (username password : string)
    (accountInfo : option AccountInfo.t) : M (option Session.t) :=
  assign all_null ;;
  try_finally
    (try_catch (loginBody username password accountInfo) (fun _ => ret None))
    cleanup.

(* ----------------------------------------------------------------- *)
(** *** [processAccounts] (lines 1099-1122) *)

Definition isSome {A} (x : option A) : bool :=
  match x with Some _ => true | None => false end.

(** Lines 1108-1112. *)
Definition resultEntry (account : Account.t) (result : option Session.t) : RunResult.t :=
  RunResult.mk (Account.username account) (isSome result) result.

(** The loop of lines 1102-1119 on the accounts still to process, [results]
    being the array built so far; [i < accounts.length - 1] holds exactly
    when accounts remain after the current one. *)
Fixpoint processFrom (accounts : list Account.t) (results : list RunResult.t)
    : M (list RunResult.t) :=
  match accounts with
  | [] => ret results
  | account :: rest =>
      result <- loginAndGetSession (Account.username account) (Account.password account) None ;;
      let results := results ++ [resultEntry account result] in
      when (0 <? Z.of_nat (List.length rest)) (randomDelay 5000 7000) ;;
      processFrom rest results
  end.

Definition processAccounts (accounts : list Account.t) : M (list RunResult.t) :=
  processFrom accounts [].

(* ================================================================= *)
(** ** Observing a run *)

(** A fresh run: nothing recorded, the three locals still to be set. *)
Definition initial (w : World) : state := mkState w [] (mkLocals false false false).

(** The answer the world gives to [c] in state [s], and the state after. *)
Definition answer {R} (c : call R) (s : state) : exn + R := fst (handle c (world s)).

Definition after {R} (c : call R) (s : state) : state :=
  mkState (snd (handle c (world s))) (trace s ++ [Ev c (answer c s)]) (vars s).

(** How the four token calls read an answer. *)
Definition listed (r : exn + response (option (list Token.t))) : list Token.t :=
  match r with
  | inr (Replied status success _ (Some tokens)) =>
      if (status =? 200) && success then tokens else []
  | _ => []
  end.

Definition succeeded (r : exn + response unit) : bool :=
  match r with
  | inr (Replied status success _ _) => (status =? 200) && success
  | _ => false
  end.

Definition confirmed (r : exn + response (option Token.t)) : option Token.t :=
  match r with
  | inr (Replied status success _ data) =>
      if (status =? 200) && success then data else None
  | _ => None
  end.

(** The kinds of calls, to count and to filter events. *)
Inductive kind : Type :=
| Launch | NewContext | Stealth | NewPage | Goto | Login | Cookies | SignIn
| Self | Transfer | TokenList | TokenDelete | TokenCreate | TokenUpdate
| PostKeys | IsClosed | PageClose | ContextClose | BrowserClose | Timer.

Definition kind_of {R} (c : call R) : kind :=
  match c with
  | chromium_launch => Launch
  | browser_newContext => NewContext
  | applyStealthToContext => Stealth
  | context_newPage => NewPage
  | page_goto _ => Goto
  | fetch_login _ _ => Login
  | context_cookies => Cookies
  | fetch_sign_in _ => SignIn
  | fetch_self _ => Self
  | fetch_aff_transfer _ _ => Transfer
  | fetch_token_list _ => TokenList
  | fetch_token_delete _ _ => TokenDelete
  | fetch_token_create _ _ => TokenCreate
  | fetch_token_update _ _ => TokenUpdate
  | post_addKeys _ => PostKeys
  | page_isClosed => IsClosed
  | page_close => PageClose
  | context_close => ContextClose
  | browser_close => BrowserClose
  | setTimeout _ _ => Timer
  end.

Definition event_kind (e : event) : kind :=
  match e with Ev c _ => kind_of c end.

Definition kind_eqb (a b : kind) : bool :=
  match a, b with
  | Launch, Launch | NewContext, NewContext | Stealth, Stealth
  | NewPage, NewPage | Goto, Goto | Login, Login | Cookies, Cookies
  | SignIn, SignIn | Self, Self | Transfer, Transfer | TokenList, TokenList
  | TokenDelete, TokenDelete | TokenCreate, TokenCreate
  | TokenUpdate, TokenUpdate | PostKeys, PostKeys | IsClosed, IsClosed
  | PageClose, PageClose | ContextClose, ContextClose
  | BrowserClose, BrowserClose | Timer, Timer => true
  | _, _ => false
  end.

Definition resolved (e : event) : bool :=
  match e with Ev _ (inr _) => true | Ev _ (inl _) => false end.

(** How many calls of kind [k] a trace holds, and how many of them
    resolved. *)
Definition calls (k : kind) (t : list event) : nat :=
  List.length (filter (fun e => kind_eqb (event_kind e) k) t).

Definition resolutions (k : kind) (t : list event) : nat :=
  List.length (filter (fun e => kind_eqb (event_kind e) k && resolved e) t).

(** The creation, update and inventory requests of a trace, in order. *)
Definition creation (e : event)
    : option (string * RequestBody.t * (exn + response unit)) :=
  match e with
  | Ev c r =>
      match c in call R return (exn + R) -> option _ with
      | fetch_token_create apiUser body => fun r => Some (apiUser, body, r)
      | _ => fun _ => None
      end r
  end.

Definition update (e : event)
    : option (string * Token.t * (exn + response (option Token.t))) :=
  match e with
  | Ev c r =>
      match c in call R return (exn + R) -> option _ with
      | fetch_token_update apiUser tokenData => fun r => Some (apiUser, tokenData, r)
      | _ => fun _ => None
      end r
  end.

Definition posting (e : event) : option (list RequestKey.t) :=
  match e with
  | Ev c _ =>
      match c with
      | post_addKeys keys => Some keys
      | _ => None
      end
  end.

Definition pick {A B} (f : A -> option B) (l : list A) : list B :=
  flat_map (fun a => match f a with Some b => [b] | None => [] end) l.

Definition creations (t : list event) := pick creation t.
Definition updates (t : list event) := pick update t.
Definition postings (t : list event) := pick posting t.

(** Every event a computation adds to the trace satisfies [P]. *)
Definition emits (P : event -> Prop) {A} (m : M A) : Prop :=
  forall s, exists t, trace (snd (m s)) = trace s ++ t /\ Forall P t.

(** A computation leaves the three locals alone. *)
Definition keeps {A} (m : M A) : Prop :=
  forall s, vars (snd (m s)) = vars s.

(** A computation never raises. *)
Definition returns {A} (m : M A) : Prop :=
  forall s, exists a, fst (m s) = Returned a.

(** *** Vocabulary of the claims *)

(** An intent "without an id": the test of line 935. *)
Definition withoutId (tokenConfig : TokenConfig.t) : bool :=
  negb (truthy_num (TokenConfig.id tokenConfig)).

(** An intent whose name starts with the resale marker. *)
Definition carriesMarker (tokenConfig : TokenConfig.t) : bool :=
  match TokenConfig.name tokenConfig with
  | Some name => startsWith name sell_prefix
  | None => false
  end.

(** The candidates recorded for creation intents, given the creation
    requests that were answered. *)
Definition candidates (creating : list TokenConfig.t)
    (made : list (string * RequestBody.t * (exn + response unit)))
    : list Pending.t :=
  flat_map
    (fun cx : TokenConfig.t * (string * RequestBody.t * (exn + response unit)) =>
       match TokenConfig.name (fst cx) with
       | Some name =>
           if succeeded (snd (snd cx)) && carriesMarker (fst cx)
           then [Pending.mk name (TokenConfig.remain_quota (fst cx))]
           else []
       | None => []
       end)
    (combine creating made).

(** An inventory request within the limit of the collaborator. *)
Definition withinLimit (e : event) : Prop :=
  match posting e with
  | Some keys => (1 <= List.length keys <= 100)%nat
  | None => True
  end.


(** An event that is neither an acquisition nor a release of the browser,
    its context or its page. *)
Definition inert (e : event) : Prop :=
  match event_kind e with
  | Launch | NewContext | NewPage | IsClosed | PageClose | ContextClose
  | BrowserClose => False
  | _ => True
  end.

(** The release calls went through: [page.isClosed()] said no, and no
    [close] raised. *)
Definition smooth (e : event) : Prop :=
  match event_kind e with
  | IsClosed =>
      match e with
      | Ev c r =>
          match c in call R return (exn + R) -> Prop with
          | page_isClosed => fun r => r = inr false
          | _ => fun _ => True
          end r
      end
  | PageClose | ContextClose | BrowserClose => resolved e = true
  | _ => True
  end.

(** The batch as a chain of runs: every account, in order, gets one run of
    [loginAndGetSession] on its username and its password, without
    [accountInfo], started in the state the previous account left (after the
    delay, when accounts remain); [results] holds what the runs returned. *)
Inductive batch : list Account.t -> state -> list (option Session.t) -> state -> Prop :=
| batch_done s : batch [] s [] s
| batch_step account rest s result s1 results s2 :
    loginAndGetSession (Account.username account) (Account.password account) None s
      = (Returned result, s1) ->
    batch rest
      (snd (when (0 <? Z.of_nat (List.length rest)) (randomDelay 5000 7000) s1))
      results s2 ->
    batch (account :: rest) s (result :: results) s2.



(* ================================================================= *)
(** ** The rest of the inventory client *)

(** [addKey] and [updateKeyInfo] end in
    [return handleApiResponse(apiClient.post(url, body))], code that lives in
    [client.js]: they either answer on their own or hand a request over. *)
Inductive sent (Body : Type) : Type :=
| Refused (result : ApiResult.t)
| Posted (url : string) (body : Body).

Arguments Refused {Body} result.
Arguments Posted {Body} url body.

(** Lines 42-111.  The destructuring of line 43 gives [quota] and [is_sold]
    their defaults before anything is checked.  Of the length test of line
    61 only the upper bound can fire, an empty key being refused before;
    [quota] is a number by its type, so the test of line 77 is on its
    sign. *)
Definition addKey (keyData : KeyData.t) : sent RequestKey.t :=
  let key := KeyData.key keyData in
  let key_type := KeyData.key_type keyData in
  let quota := match KeyData.quota keyData with Some q => q | None => 0%Q end in
  let source_name := KeyData.source_name keyData in
  let account_id := KeyData.account_id keyData in
  let is_sold := match KeyData.is_sold keyData with Some b => b | None => false end in
  if (key =? EmptyString)%string then
    Refused (rejected "API Key不能为空")
  else if (key_type =? EmptyString)%string then
    Refused (rejected "Key类型不能为空")
  else if (500 <? Z.of_nat (length_ key)) then
    Refused (rejected "API Key长度必须在1-500个字符之间")
  else if negb (includes key_types key_type) then
    Refused (rejected "Key类型必须为 coderouter、anyrouter 或 other")
  else if Qnegative quota then
    Refused (rejected "额度必须为非负数")
  else if match source_name with
          | Some n => 200 <? Z.of_nat (length_ n)
          | None => false
          end then
    Refused (rejected "来源名称不能超过200个字符")
  else
    Posted "/ai-key-admin/addKey"
      (RequestKey.mk key key_type quota is_sold source_name account_id).

(** A member of [updateData]. *)
Inductive jsval : Type :=
| JUndefined
| JNull
| JBool (b : bool)
| JNum (q : Q)
| JStr (s : string).

(** [updateData]: the own members of the object, each name once, in
    insertion order. *)
Definition object : Type := list (string * jsval).

(** [field in o]. *)
Definition has (o : object) (field : string) : bool :=
  existsb (fun member => (fst member =? field)%string) o.

(** [o[field]]. *)
Definition get (o : object) (field : string) : jsval :=
  match find (fun member => (fst member =? field)%string) o with
  | Some member => snd member
  | None => JUndefined
  end.

Definition forbiddenFields : list string := ["_id"; "create_date"].

Definition numericFields : list string := ["quota"; "remain_quota"; "used_quota"].

(** The test of line 331. *)
Definition badKeyType (v : jsval) : bool :=
  match v with
  | JUndefined => false
  | JStr s => negb (includes key_types s)
  | _ => true
  end.

(** The test of line 341. *)
Definition badNumber (v : jsval) : bool :=
  match v with
  | JUndefined => false
  | JNum q => Qnegative q
  | _ => true
  end.

(** Lines 294-350. *)
Definition updateKeyInfo (_id : string) (updateData : object)
    : sent (string * object) :=
  if (_id =? EmptyString)%string then
    Refused (rejected "Key记录ID不能为空")
  else if (Z.of_nat (List.length updateData) =? 0) then
    Refused (rejected "至少需要提供一个要更新的字段")
  else
    match find (has updateData) forbiddenFields with
    | Some field => Refused (rejected ("不允许更新 " ++ field ++ " 字段")%string)
    | None =>
        if badKeyType (get updateData "key_type") then
          Refused (rejected "Key类型必须为 coderouter、anyrouter 或 other")
        else
          match find (fun field => badNumber (get updateData field)) numericFields with
          | Some field => Refused (rejected (field ++ " 必须为非负数")%string)
          | None => Posted "/ai-key-admin/updateKeyInfo" (_id, updateData)
          end
    end.

(** *** Vocabulary of the further properties *)

(** A key that passes every field rule of the inventory client, lengths
    being counted as [.length] counts them. *)
Definition WellFormedKey (keyData : KeyData.t) : Prop :=
  KeyData.key keyData <> EmptyString
  /\ (length_ (KeyData.key keyData) <= 500)%nat
  /\ In (KeyData.key_type keyData) ["coderouter"; "anyrouter"; "other"]
  /\ (forall q, KeyData.quota keyData = Some q -> (0 <= q)%Q)
  /\ (forall n, KeyData.source_name keyData = Some n -> (length_ n <= 200)%nat).

(** A member that is absent or a non-negative number. *)
Definition absentOrAmount (v : jsval) : Prop :=
  v = JUndefined \/ exists q, v = JNum q /\ (0 <= q)%Q.

(** A member that is absent or one of the three key types. *)
Definition absentOrKeyType (v : jsval) : Prop :=
  v = JUndefined \/ exists s, v = JStr s /\ In s ["coderouter"; "anyrouter"; "other"].

(** A call without its answer. *)
Inductive request : Type :=
| Request (R : Type) (c : call R).

Arguments Request {R} c.

Definition requests (t : list event) : list request :=
  map (fun e => match e with Ev c _ => Request c end) t.

(** The call an intent stands for in the intent loop, if any. *)
Definition intentRequests (apiUser : string) (tokenConfig : TokenConfig.t)
    : list request :=
  match TokenConfig.id tokenConfig with
  | Some id =>
      if id =? 0 then
        [Request (fetch_token_create apiUser (requestBody (creationConfig tokenConfig)))]
      else if TokenConfig.is_deleted tokenConfig then
        [Request (fetch_token_delete apiUser id)]
      else []
  | None =>
      [Request (fetch_token_create apiUser (requestBody (creationConfig tokenConfig)))]
  end.

(** A token without its remain_quota: what supplementing must not touch. *)
Definition sansQuota (token : Token.t) : Token.t := Token.set_remain_quota None token.

(** The user object of an accepted login: HTTP success, [success] true and a
    truthy id (lines 739-753). *)
Definition loginData (loginResult : response (option UserData.t))
    : option UserData.t :=
  match loginResult with
  | Failed _ => None
  | Replied status success _ data =>
      if http_ok status && success then
        match data with
        | Some d => if UserData.id d =? 0 then None else Some d
        | None => None
        end
      else None
  | Nulled _ => None
  end.

(** An HTTP success whose body is [null]: the answer whose [success] member
    cannot be read (lines 744, 823 and 863). *)
Definition unreadable {D} (result : response D) : bool :=
  match result with
  | Nulled status => http_ok status
  | _ => false
  end.

(** The test of line 863. *)
Definition profileFetched (userInfoResult : response (option UserData.t)) : bool :=
  match userInfoResult with
  | Failed _ => false
  | Replied status success _ _ => http_ok status && success
  | Nulled _ => false
  end.

(** The stages of [signIn], named: what follows a fetched profile answer
    (lines 862-1069), what follows a session cookie (lines 768-1077) and
    what follows an accepted login (lines 757-1077). *)
Definition resolveProfile (accountInfo : option AccountInfo.t)
    (loginData : UserData.t) (userInfoResult : response (option UserData.t))
    : M UserData.t :=
  match userInfoResult with
  | Failed _ => ret loginData
  | Replied status success _ data =>
      if http_ok status && success then
        match data with
        | Some userData => withProfile (UserData.id loginData) accountInfo userData
        | None => throw "TypeError: Cannot read properties of undefined"
        end
      else ret loginData
  | Nulled status => if http_ok status then throw null_read else ret loginData
  end.

Definition inSession (accountInfo : option AccountInfo.t) (loginData : UserData.t)
    (sessionCookie : string * string) : M (option Session.t) :=
  let apiUser := UserData.id loginData in
  signInResult <- perform (fetch_sign_in apiUser) ;;
  signedIn signInResult ;;
  userInfoResult <- perform (fetch_self apiUser) ;;
  userData <- resolveProfile accountInfo loginData userInfoResult ;;
  ret (Some (Session.mk (snd sessionCookie) (String_ apiUser) userData)).

Definition establish (accountInfo : option AccountInfo.t) (loginData : UserData.t)
    : M (option Session.t) :=
  cookies <- perform context_cookies ;;
  match find (fun c => (fst c =? "session")%string) cookies with
  | None => ret None
  | Some sessionCookie => inSession accountInfo loginData sessionCookie
  end.

(** The stages of a run, by the kinds of their calls. *)
Definition opening (k : kind) : bool :=
  match k with
  | Launch | NewContext | Stealth | NewPage => true
  | _ => false
  end.

Definition closing (k : kind) : bool :=
  match k with
  | IsClosed | PageClose | ContextClose | BrowserClose => true
  | _ => false
  end.

(** What only an established session does: sign in, read the profile,
    transfer, work on tokens, publish. *)
Definition sessionWork (k : kind) : bool :=
  match k with
  | SignIn | Self | Transfer | TokenList | TokenDelete | TokenCreate
  | TokenUpdate | PostKeys => true
  | _ => false
  end.

(** What only a fetched profile allows. *)
Definition profileWork (k : kind) : bool :=
  match k with
  | Transfer | TokenList | TokenDelete | TokenCreate | TokenUpdate
  | PostKeys => true
  | _ => false
  end.

(** The answer of a login call, and that of a profile call. *)
Definition loginAnswer (e : event) : option (response (option UserData.t)) :=
  match e with
  | Ev c r =>
      match c in call R return (exn + R) -> option _ with
      | fetch_login _ _ => fun r => match r with inr x => Some x | inl _ => None end
      | _ => fun _ => None
      end r
  end.

Definition selfAnswer (e : event) : option (response (option UserData.t)) :=
  match e with
  | Ev c r =>
      match c in call R return (exn + R) -> option _ with
      | fetch_self _ => fun r => match r with inr x => Some x | inl _ => None end
      | _ => fun _ => None
      end r
  end.

(** The answer of a reward call. *)
Definition signInAnswer (e : event) : option (response unit) :=
  match e with
  | Ev c r =>
      match c in call R return (exn + R) -> option _ with
      | fetch_sign_in _ => fun r => match r with inr x => Some x | inl _ => None end
      | _ => fun _ => None
      end r
  end.

(** A reward call that came back with an answer the run can go on from:
    any answer but an HTTP success whose body is [null]. *)
Definition rewardRead (e : event) : bool :=
  match signInAnswer e with
  | Some signInResult => negb (unreadable signInResult)
  | None => false
  end.

(** The page was reported closed already, and the two other closes went
    through. *)
Definition pageGone (e : event) : Prop :=
  match event_kind e with
  | IsClosed =>
      match e with
      | Ev c r =>
          match c in call R return (exn + R) -> Prop with
          | page_isClosed => fun r => r = inr true
          | _ => fun _ => True
          end r
      end
  | ContextClose | BrowserClose => resolved e = true
  | _ => True
  end.

(** The delay between two accounts (line 1117). *)
Definition pacing (e : event) : bool :=
  match e with
  | Ev c _ =>
      match c with
      | setTimeout min max => (min =? 5000) && (max =? 7000)
      | _ => false
      end
  end.

(* ================================================================= *)
(** ** How computations compose *)

Section Composition.

Variable P : event -> Prop.

Lemma emits_ret A (a : A) : emits P (ret a).
Proof. intros s. exists []. simpl. now rewrite app_nil_r. Qed.

Lemma emits_throw A (e : exn) : emits P (@throw A e).
Proof. intros s. exists []. simpl. now rewrite app_nil_r. Qed.

Lemma emits_bind A B (m : M A) (k : A -> M B) :
  emits P m -> (forall a, emits P (k a)) -> emits P (bind m k).
Proof.
  intros Hm Hk s. unfold bind.
  destruct (Hm s) as [t [Ht HP]].
  destruct (m s) as [[a | e] s1]; simpl in *.
  - destruct (Hk a s1) as [t' [Ht' HP']].
    exists (t ++ t'). rewrite Ht', Ht, app_assoc. split; trivial.
    apply Forall_app; now split.
  - now exists t.
Qed.

Lemma emits_try_catch A (m : M A) (h : exn -> M A) :
  emits P m -> (forall e, emits P (h e)) -> emits P (try_catch m h).
Proof.
  intros Hm Hh s. unfold try_catch.
  destruct (Hm s) as [t [Ht HP]].
  destruct (m s) as [[a | e] s1]; simpl in *.
  - now exists t.
  - destruct (Hh e s1) as [t' [Ht' HP']].
    exists (t ++ t'). rewrite Ht', Ht, app_assoc. split; trivial.
    apply Forall_app; now split.
Qed.

Lemma emits_try_finally A (m : M A) (f : M unit) :
  emits P m -> emits P f -> emits P (try_finally m f).
Proof.
  intros Hm Hf s. unfold try_finally.
  destruct (Hm s) as [t [Ht HP]].
  destruct (m s) as [o s1]; simpl in *.
  destruct (Hf s1) as [t' [Ht' HP']].
  exists (t ++ t'). split.
  - destruct (f s1) as [[[] | e] s2]; simpl in *; now rewrite Ht', Ht, app_assoc.
  - apply Forall_app; now split.
Qed.

Lemma emits_perform R (c : call R) :
  (forall r, P (Ev c r)) -> emits P (perform c).
Proof.
  intros H s. unfold perform.
  destruct (handle c (world s)) as [r w]. simpl.
  exists [Ev c r]. split; trivial. constructor; auto.
Qed.

Lemma emits_assign f : emits P (assign f).
Proof. intros s. exists []. simpl. now rewrite app_nil_r. Qed.

Lemma emits_read_vars : emits P read_vars.
Proof. intros s. exists []. simpl. now rewrite app_nil_r. Qed.

Lemma emits_when b (m : M unit) : emits P m -> emits P (when b m).
Proof. destruct b; simpl; trivial. intros _. apply emits_ret. Qed.

End Composition.

Lemma emits_weaken (P Q : event -> Prop) A (m : M A) :
  (forall e, P e -> Q e) -> emits P m -> emits Q m.
Proof.
  intros H Hm s. destruct (Hm s) as [t [Ht HP]].
  exists t. split; trivial. eapply Forall_impl; eauto.
Qed.

Lemma keeps_ret A (a : A) : keeps (ret a).
Proof. now intros s. Qed.

Lemma keeps_throw A (e : exn) : keeps (@throw A e).
Proof. now intros s. Qed.

Lemma keeps_bind A B (m : M A) (k : A -> M B) :
  keeps m -> (forall a, keeps (k a)) -> keeps (bind m k).
Proof.
  intros Hm Hk s. unfold bind. specialize (Hm s).
  destruct (m s) as [[a | e] s1]; simpl in *; trivial.
  now rewrite Hk.
Qed.

Lemma keeps_try_catch A (m : M A) (h : exn -> M A) :
  keeps m -> (forall e, keeps (h e)) -> keeps (try_catch m h).
Proof.
  intros Hm Hh s. unfold try_catch. specialize (Hm s).
  destruct (m s) as [[a | e] s1]; simpl in *; trivial.
  now rewrite Hh.
Qed.

Lemma keeps_perform R (c : call R) : keeps (perform c).
Proof. intros s. unfold perform. now destruct (handle c (world s)). Qed.

Lemma keeps_when b (m : M unit) : keeps m -> keeps (when b m).
Proof. destruct b; simpl; trivial. intros _. apply keeps_ret. Qed.

Lemma returns_ret A (a : A) : returns (ret a).
Proof. intros s. now exists a. Qed.

Lemma returns_bind A B (m : M A) (k : A -> M B) :
  returns m -> (forall a, returns (k a)) -> returns (bind m k).
Proof.
  intros Hm Hk s. unfold bind. destruct (Hm s) as [a Ha].
  destruct (m s) as [o s1]; simpl in Ha; subst o. apply Hk.
Qed.

Lemma returns_try_catch A (m : M A) (h : exn -> M A) :
  (forall e, returns (h e)) -> returns (try_catch m h).
Proof.
  intros Hh s. unfold try_catch.
  destruct (m s) as [[a | e] s1]; simpl.
  - now exists a.
  - apply Hh.
Qed.

Lemma returns_try_finally A (m : M A) (f : M unit) :
  returns m -> returns f -> returns (try_finally m f).
Proof.
  intros Hm Hf s. unfold try_finally. destruct (Hm s) as [a Ha].
  destruct (m s) as [o s1]; simpl in Ha; subst o.
  destruct (Hf s1) as [u Hu].
  destruct (f s1) as [[[] | e] s2]; simpl in *; try discriminate.
  now exists a.
Qed.

Lemma returns_assign f : returns (assign f).
Proof. intros s. now exists tt. Qed.

Lemma returns_when b (m : M unit) : returns m -> returns (when b m).
Proof. destruct b; simpl; trivial. intros _. apply returns_ret. Qed.

(** A computation that returns is a pair of its value and its final state. *)
Lemma returns_eq A (m : M A) :
  returns m -> forall s, exists a, m s = (Returned a, snd (m s)).
Proof.
  intros H s. destruct (H s) as [a Ha]. exists a.
  destruct (m s); simpl in *; now subst.
Qed.

(* ----------------------------------------------------------------- *)
(** *** The leaves: one exchange each *)

Lemma perform_eq R (c : call R) s :
  perform c s
  = (match answer c s with inr v => Returned v | inl e => Threw e end, after c s).
Proof.
  unfold perform, after, answer. now destruct (handle c (world s)).
Qed.

Lemma getTokens_eq apiUser s :
  getTokens apiUser s
  = (Returned (listed (answer (fetch_token_list apiUser) s)),
     after (fetch_token_list apiUser) s).
Proof.
  unfold getTokens, try_catch, bind. rewrite perform_eq.
  destruct (answer (fetch_token_list apiUser) s) as [e | [err | st ok msg [tks |] | st]];
    simpl; trivial;
    first [now destruct ((st =? 200) && ok) | now destruct (st =? 200)].
Qed.

Lemma deleteToken_eq apiUser tokenId s :
  deleteToken apiUser tokenId s
  = (Returned (succeeded (answer (fetch_token_delete apiUser tokenId) s)),
     after (fetch_token_delete apiUser tokenId) s).
Proof.
  unfold deleteToken, try_catch, bind. rewrite perform_eq.
  destruct (answer (fetch_token_delete apiUser tokenId) s) as [e | [err | st ok msg d | st]];
    simpl; trivial;
    first [now destruct ((st =? 200) && ok) | now destruct (st =? 200)].
Qed.

Lemma createToken_eq apiUser tokenConfig s :
  createToken apiUser tokenConfig s
  = (Returned (succeeded (answer (fetch_token_create apiUser (requestBody tokenConfig)) s)),
     after (fetch_token_create apiUser (requestBody tokenConfig)) s).
Proof.
  unfold createToken, try_catch, bind. rewrite perform_eq.
  destruct (answer (fetch_token_create apiUser (requestBody tokenConfig)) s)
    as [e | [err | st ok msg d | st]];
    simpl; trivial;
    first [now destruct ((st =? 200) && ok) | now destruct (st =? 200)].
Qed.

Lemma updateToken_eq apiUser tokenData s :
  updateToken apiUser tokenData s
  = (Returned (confirmed (answer (fetch_token_update apiUser tokenData) s)),
     after (fetch_token_update apiUser tokenData) s).
Proof.
  unfold updateToken, try_catch, bind. rewrite perform_eq.
  destruct (answer (fetch_token_update apiUser tokenData) s)
    as [e | [err | st ok msg d | st]];
    simpl; trivial;
    first [now destruct ((st =? 200) && ok) | now destruct (st =? 200)].
Qed.

Lemma randomDelay_eq lo hi s :
  randomDelay lo hi s = (Returned tt, after (setTimeout lo hi) s).
Proof.
  unfold randomDelay, try_catch. rewrite perform_eq.
  now destruct (answer (setTimeout lo hi) s) as [e | []].
Qed.

(* ----------------------------------------------------------------- *)
(** *** Events of the token calls *)

Ltac emits_step :=
  lazymatch goal with
  | |- emits _ (bind _ _) => apply emits_bind; [| intros ?]
  | |- emits _ (ret _) => apply emits_ret
  | |- emits _ (throw _) => apply emits_throw
  | |- emits _ (try_catch _ _) => apply emits_try_catch; [| intros ?]
  | |- emits _ (try_finally _ _) => apply emits_try_finally
  | |- emits _ (perform _) => apply emits_perform; intros ?
  | |- emits _ (assign _) => apply emits_assign
  | |- emits _ read_vars => apply emits_read_vars
  | |- emits _ (when _ _) => apply emits_when
  | |- emits _ (match ?x with _ => _ end) => destruct x
  end.

Ltac keeps_step :=
  lazymatch goal with
  | |- keeps (bind _ _) => apply keeps_bind; [| intros ?]
  | |- keeps (ret _) => apply keeps_ret
  | |- keeps (throw _) => apply keeps_throw
  | |- keeps (try_catch _ _) => apply keeps_try_catch; [| intros ?]
  | |- keeps (perform _) => apply keeps_perform
  | |- keeps (when _ _) => apply keeps_when
  | |- keeps (match ?x with _ => _ end) => destruct x
  end.

Section TokenCalls.

Variable P : event -> Prop.
Variable apiUser : string.

Lemma getTokens_emits :
  (forall r, P (Ev (fetch_token_list apiUser) r)) -> emits P (getTokens apiUser).
Proof. intros H. unfold getTokens. repeat emits_step; auto. Qed.

Lemma deleteToken_emits tokenId :
  (forall r, P (Ev (fetch_token_delete apiUser tokenId) r)) ->
  emits P (deleteToken apiUser tokenId).
Proof. intros H. unfold deleteToken. repeat emits_step; auto. Qed.

Lemma createToken_emits tokenConfig :
  (forall r, P (Ev (fetch_token_create apiUser (requestBody tokenConfig)) r)) ->
  emits P (createToken apiUser tokenConfig).
Proof. intros H. unfold createToken. repeat emits_step; auto. Qed.

Lemma updateToken_emits tokenData :
  (forall r, P (Ev (fetch_token_update apiUser tokenData) r)) ->
  emits P (updateToken apiUser tokenData).
Proof. intros H. unfold updateToken. repeat emits_step; auto. Qed.

Lemma manageTokens_emits :
  (forall tokenId r, P (Ev (fetch_token_delete apiUser tokenId) r)) ->
  (forall body r, P (Ev (fetch_token_create apiUser body) r)) ->
  forall tokens pending, emits P (manageTokens apiUser tokens pending).
Proof.
  intros Hd Hc tokens.
  induction tokens as [| tokenConfig tokens IH]; intros pending; simpl.
  - apply emits_ret.
  - repeat first
      [ apply IH | apply deleteToken_emits | apply createToken_emits
      | emits_step ]; auto.
Qed.

Lemma supplementTokens_emits :
  (forall tokenData r, P (Ev (fetch_token_update apiUser tokenData) r)) ->
  forall configured tokens, emits P (supplementTokens apiUser configured tokens).
Proof.
  intros Hu configured.
  induction configured as [| configToken rest IH]; intros tokens; simpl.
  - apply emits_ret.
  - repeat first [ apply IH | apply updateToken_emits | emits_step ]; auto.
Qed.

End TokenCalls.

Lemma randomDelay_emits P lo hi :
  (forall r, P (Ev (setTimeout lo hi) r)) -> emits P (randomDelay lo hi).
Proof. intros H. unfold randomDelay. repeat emits_step; auto. Qed.

Lemma getTokens_keeps apiUser : keeps (getTokens apiUser).
Proof. unfold getTokens. repeat keeps_step. Qed.

Lemma deleteToken_keeps apiUser tokenId : keeps (deleteToken apiUser tokenId).
Proof. unfold deleteToken. repeat keeps_step. Qed.

Lemma createToken_keeps apiUser tokenConfig : keeps (createToken apiUser tokenConfig).
Proof. unfold createToken. repeat keeps_step. Qed.

Lemma updateToken_keeps apiUser tokenData : keeps (updateToken apiUser tokenData).
Proof. unfold updateToken. repeat keeps_step. Qed.

Lemma manageTokens_keeps apiUser tokens pending :
  keeps (manageTokens apiUser tokens pending).
Proof.
  revert pending.
  induction tokens as [| tokenConfig tokens IH]; intros pending; simpl.
  - apply keeps_ret.
  - repeat first
      [ apply IH | apply deleteToken_keeps | apply createToken_keeps | keeps_step ].
Qed.

Lemma supplementTokens_keeps apiUser configured tokens :
  keeps (supplementTokens apiUser configured tokens).
Proof.
  revert tokens.
  induction configured as [| configToken rest IH]; intros tokens; simpl.
  - apply keeps_ret.
  - repeat first [ apply IH | apply updateToken_keeps | keeps_step ].
Qed.

Lemma randomDelay_keeps lo hi : keeps (randomDelay lo hi).
Proof. unfold randomDelay. repeat keeps_step. Qed.

(** Traces that hold no creation, no update, no inventory request. *)
Lemma pick_none A B (f : A -> option B) l :
  Forall (fun a => f a = None) l -> pick f l = [].
Proof.
  induction 1 as [| a l Ha _ IH]; trivial.
  unfold pick in *. simpl. now rewrite Ha, IH.
Qed.

(* ----------------------------------------------------------------- *)
(** *** The intent loop *)

Lemma trace_after R (c : call R) s :
  trace (after c s) = trace s ++ [Ev c (answer c s)].
Proof. reflexivity. Qed.

Lemma pick_app A B (f : A -> option B) l l' :
  pick f (l ++ l') = pick f l ++ pick f l'.
Proof. unfold pick. apply flat_map_app. Qed.

(** The marker is not empty, so a name that carries it is not empty. *)
Lemma isSellToken_carriesMarker tokenConfig :
  isSellToken tokenConfig = carriesMarker tokenConfig.
Proof.
  unfold isSellToken, carriesMarker.
  destruct (TokenConfig.name tokenConfig) as [name |]; trivial.
  destruct (String.eqb_spec name EmptyString); subst; trivial.
Qed.

Lemma candidates_cons tokenConfig creating x made :
  candidates (tokenConfig :: creating) (x :: made)
  = (if succeeded (snd x) && isSellToken tokenConfig then [pendingOf tokenConfig] else [])
    ++ candidates creating made.
Proof.
  unfold candidates at 1. simpl. fold (candidates creating made). f_equal.
  rewrite isSellToken_carriesMarker. unfold carriesMarker, pendingOf, str_or.
  destruct (TokenConfig.name tokenConfig) as [name |].
  - destruct (succeeded (snd x)); simpl; trivial.
    destruct (String.eqb_spec name EmptyString); subst; trivial.
  - now rewrite andb_false_r.
Qed.

(** C4. For every list of token intents, the creation requests issued by the
    intent loop are, in order, one per intent without an id (and no other),
    and the resale candidates it records are exactly those of the intents
    without an id whose creation succeeded and whose name starts with the
    marker, each with the intent's name and remain_quota. *)
Theorem manageTokens_creations_and_candidates apiUser tokens pending s :
  exists t,
    trace (snd (manageTokens apiUser tokens pending s)) = trace s ++ t
    /\ map fst (creations t)
       = map (fun c => (apiUser, requestBody (creationConfig c))) (filter withoutId tokens)
    /\ fst (manageTokens apiUser tokens pending s)
       = Returned (pending ++ candidates (filter withoutId tokens) (creations t)).
Proof.
  revert pending s.
  induction tokens as [| tokenConfig tokens IH]; intros pending s.
  - exists []. simpl. now rewrite !app_nil_r.
  - simpl.
    assert (Hw : withoutId tokenConfig = negb (truthy_num (TokenConfig.id tokenConfig)))
      by reflexivity.
    rewrite Hw. clear Hw.
    destruct (truthy_num (TokenConfig.id tokenConfig)) eqn:Hid; simpl.
    + destruct (TokenConfig.is_deleted tokenConfig).
      * unfold bind. rewrite deleteToken_eq.
        match goal with |- context [manageTokens _ _ _ ?s1] =>
          destruct (IH pending s1) as [t [Ht [Hc Hr]]] end.
        eexists (_ :: t). rewrite Ht, Hr, trace_after, <- app_assoc.
        repeat split; trivial.
      * destruct (IH pending s) as [t [Ht [Hc Hr]]]. now exists t.
    + unfold bind. rewrite createToken_eq.
      set (c := fetch_token_create apiUser (requestBody (creationConfig tokenConfig))).
      destruct (succeeded (answer c s) && isSellToken tokenConfig) eqn:Hok.
      * destruct (IH (pending ++ [pendingOf tokenConfig]) (after c s)) as [t [Ht [Hc Hr]]].
        exists (Ev c (answer c s) :: t).
        rewrite Ht, Hr, trace_after, <- !app_assoc. simpl.
        repeat split; trivial.
        -- unfold creations in *. simpl. now rewrite Hc.
        -- unfold creations. simpl. fold (creations t).
           rewrite candidates_cons. simpl. now rewrite Hok.
      * destruct (IH pending (after c s)) as [t [Ht [Hc Hr]]].
        exists (Ev c (answer c s) :: t).
        rewrite Ht, Hr, trace_after, <- !app_assoc. simpl.
        repeat split; trivial.
        -- unfold creations in *. simpl. now rewrite Hc.
        -- unfold creations. simpl. fold (creations t).
           rewrite candidates_cons. simpl. now rewrite Hok.
Qed.

(** C5, as the code has it. For every creation intent (an intent without an
    id), the creation request carries the intent's name, or [dw] when the
    name is absent or empty; when the intent is unlimited it carries
    unlimited_quota true and no remain_quota; otherwise it carries the
    intent's remain_quota, or 500000 when that is absent or zero. *)
Theorem creation_request_of_intent apiUser tokenConfig tokens pending s :
  withoutId tokenConfig = true ->
  exists body r t,
    trace (snd (manageTokens apiUser (tokenConfig :: tokens) pending s))
      = trace s ++ Ev (fetch_token_create apiUser body) r :: t
    /\ RequestBody.name body
       = match TokenConfig.name tokenConfig with
         | Some name => if (name =? EmptyString)%string then "dw" else name
         | None => "dw"
         end
    /\ RequestBody.unlimited_quota body
       = (if TokenConfig.unlimited_quota tokenConfig then Some true else None)
    /\ RequestBody.remain_quota body
       = (if TokenConfig.unlimited_quota tokenConfig then None
          else Some match TokenConfig.remain_quota tokenConfig with
                    | Some q => if q =? 0 then 500000 else q
                    | None => 500000
                    end).
Proof.
  intros Hid. unfold withoutId in Hid. apply negb_true_iff in Hid.
  simpl. rewrite Hid. simpl. unfold bind. rewrite createToken_eq.
  set (c := fetch_token_create apiUser (requestBody (creationConfig tokenConfig))).
  exists (requestBody (creationConfig tokenConfig)), (answer c s).
  assert (H : forall pending', exists t,
             trace (snd (manageTokens apiUser tokens pending' (after c s)))
             = trace s ++ Ev c (answer c s) :: t).
  { intros pending'.
    destruct (@manageTokens_emits (fun _ => True) apiUser
                (fun _ _ => I) (fun _ _ => I) tokens pending' (after c s))
      as [t [Ht _]].
    exists t. now rewrite Ht, trace_after, <- app_assoc. }
  destruct (succeeded (answer c s) && isSellToken tokenConfig);
    match goal with |- context [manageTokens _ _ ?p _] => destruct (H p) as [t Ht] end;
    exists t; repeat split; trivial.
Qed.

(* ----------------------------------------------------------------- *)
(** *** The referral bonus *)

(** C6. For every profile whose bonus is positive, whatever the transfer
    call reports (a success, a refusal or a transport error), settlement
    issues that one call, for the bonus amount, and returns the profile with
    the bonus added to the balance and the bonus set to zero, every other
    member unchanged. *)
Theorem settleBonus_folds_bonus apiUser userData bonus (r : response unit) s :
  UserData.aff_quota userData = Some bonus ->
  0 < bonus ->
  answer (fetch_aff_transfer (String_ apiUser) bonus) s = inr r ->
  exists userData' s',
    settleBonus apiUser userData s = (Returned userData', s')
    /\ s' = after (fetch_aff_transfer (String_ apiUser) bonus) s
    /\ UserData.quota userData' = UserData.quota userData + bonus
    /\ UserData.aff_quota userData' = Some 0
    /\ userData' = UserData.set_quotas (UserData.quota userData') (Some 0) userData.
Proof.
  intros Haff Hpos Hr. unfold settleBonus. rewrite Haff.
  apply Z.ltb_lt in Hpos. rewrite Hpos.
  unfold bind. rewrite perform_eq, Hr. simpl.
  eexists. eexists. repeat split.
Qed.

(* ----------------------------------------------------------------- *)
(** *** Supplementing one token *)

Lemma num_or_zero x : num_or x 0 = match x with Some n => n | None => 0 end.
Proof.
  destruct x as [n |]; trivial. simpl.
  destruct (Z.eqb_spec n 0); congruence.
Qed.

Lemma supplementTokens_cons apiUser configToken rest live s :
  supplementTokens apiUser (configToken :: rest) live s
  = bind (supplementTokens apiUser [configToken] live)
         (fun live' => supplementTokens apiUser rest live') s.
Proof.
  simpl. destruct (find (sameId configToken) live) as [matched |]; trivial.
  unfold bind. rewrite updateToken_eq.
  now destruct (confirmed _).
Qed.

Lemma supplement_miss apiUser configToken live s :
  find (sameId configToken) live = None ->
  supplementTokens apiUser [configToken] live s = (Returned live, s).
Proof. intros H. simpl. now rewrite H. Qed.

Lemma supplement_hit apiUser configToken live matched s :
  find (sameId configToken) live = Some matched ->
  let request := fetch_token_update apiUser (updatedTokenData matched configToken) in
  supplementTokens apiUser [configToken] live s
  = (Returned
       match confirmed (answer request s) with
       | Some updated =>
           assign_found (sameId configToken)
             (Token.set_remain_quota (Token.remain_quota updated)) live
       | None => live
       end,
     after request s).
Proof.
  intros H. simpl. rewrite H. unfold bind. rewrite updateToken_eq.
  now destruct (confirmed _).
Qed.

Lemma find_assign_found p f live matched :
  find p live = Some matched ->
  p (f matched) = true ->
  find p (assign_found p f live) = Some (f matched).
Proof.
  induction live as [| t live IH]; simpl; try discriminate.
  destruct (p t) eqn:Hp; intros H Hf.
  - injection H as ->. simpl. now rewrite Hf.
  - simpl. rewrite Hp. auto.
Qed.

Lemma assign_found_length p f live :
  List.length (assign_found p f live) = List.length live.
Proof.
  induction live as [| t live IH]; simpl; trivial.
  destruct (p t); simpl; congruence.
Qed.

(* ----------------------------------------------------------------- *)
(** *** Fetching the live list *)

Lemma fetchTokens_empty apiUser accountInfo s :
  let listing := fetch_token_list apiUser in
  let create := fetch_token_create apiUser (requestBody fallbackConfig) in
  listed (answer listing s) = [] ->
  fetchTokens apiUser accountInfo s
  = if succeeded (answer create (after listing s))
    then (Returned (listed (answer listing (after create (after listing s)))),
          after listing (after create (after listing s)))
    else (Returned [], after create (after listing s)).
Proof.
  intros listing create H. unfold fetchTokens, bind at 1.
  rewrite getTokens_eq. fold listing. rewrite H. simpl.
  unfold bind. rewrite createToken_eq. fold create.
  destruct (succeeded _); trivial. now rewrite getTokens_eq.
Qed.

Lemma fetchTokens_nonempty apiUser accountInfo s :
  let listing := fetch_token_list apiUser in
  listed (answer listing s) <> [] ->
  fetchTokens apiUser accountInfo s
  = supplementTokens apiUser
      (filter needsSupplement
         match configuredTokens accountInfo with
         | Some configured => configured
         | None => []
         end)
      (listed (answer listing s)) (after listing s).
Proof.
  intros listing H. unfold fetchTokens, bind.
  rewrite getTokens_eq. fold listing.
  destruct (listed (answer listing s)) as [| tk tks]; [congruence |].
  change (Z.of_nat (List.length (tk :: tks)) =? 0) with false.
  now destruct (configuredTokens accountInfo).
Qed.

Lemma needsSupplement_iff configToken :
  needsSupplement configToken = true
  <-> exists q, TokenConfig.supplement_quota configToken = Some q /\ 0 < q.
Proof.
  unfold needsSupplement, truthy_num.
  destruct (TokenConfig.supplement_quota configToken) as [q |]; split.
  - intros H. apply andb_true_iff in H. exists q. split; trivial.
    now apply Z.ltb_lt.
  - intros [q' [[= <-] Hq]]. apply andb_true_iff. split.
    + apply negb_true_iff. apply Z.eqb_neq. lia.
    + now apply Z.ltb_lt.
  - discriminate.
  - intros [q [H _]]. discriminate.
Qed.

Lemma updatedTokenData_eq matched configToken q :
  TokenConfig.supplement_quota configToken = Some q ->
  0 < q ->
  updatedTokenData matched configToken
  = Token.set_remain_quota
      (Some (match Token.remain_quota matched with Some n => n | None => 0 end + q))
      matched.
Proof.
  intros Hq Hpos. unfold updatedTokenData. rewrite Hq, !num_or_zero. reflexivity.
Qed.

(** C1, as the code has it. Supplementing happens only when the live list
    fetched after the intent loop is not empty: when it is empty (the branch
    that creates the fallback token) no update is requested at all. When it
    is not empty, the intents with supplement_quota > 0 are taken in order;
    for each, the first live token with the intent's id is looked up; without
    a match nothing is requested and the list is unchanged; with a match one
    update is requested, for the matched token with remain_quota set to its
    current remain_quota (0 when absent) plus supplement_quota, and when the
    update is confirmed the matched token takes the remain_quota of the
    confirmation, the list keeping its length; otherwise the list is
    unchanged. *)
Theorem supplement_only_on_nonempty_list apiUser accountInfo s :
  let listing := fetch_token_list apiUser in
  let fetched := listed (answer listing s) in
  (fetched = [] ->
     exists t, trace (snd (fetchTokens apiUser accountInfo s)) = trace s ++ t
               /\ updates t = [])
  /\ (fetched <> [] ->
        fetchTokens apiUser accountInfo s
        = supplementTokens apiUser
            (filter needsSupplement
               match configuredTokens accountInfo with
               | Some configured => configured
               | None => []
               end)
            fetched (after listing s))
  /\ (forall configToken,
        needsSupplement configToken = true
        <-> exists q, TokenConfig.supplement_quota configToken = Some q /\ 0 < q)
  /\ (forall configToken rest live s',
        supplementTokens apiUser (configToken :: rest) live s'
        = bind (supplementTokens apiUser [configToken] live)
               (fun live' => supplementTokens apiUser rest live') s')
  /\ (forall configToken live s',
        find (sameId configToken) live = None ->
        supplementTokens apiUser [configToken] live s' = (Returned live, s'))
  /\ (forall configToken q live matched s',
        TokenConfig.supplement_quota configToken = Some q ->
        0 < q ->
        find (sameId configToken) live = Some matched ->
        let current := match Token.remain_quota matched with Some n => n | None => 0 end in
        let request :=
          fetch_token_update apiUser
            (Token.set_remain_quota (Some (current + q)) matched) in
        exists live',
          supplementTokens apiUser [configToken] live s' = (Returned live', after request s')
          /\ List.length live' = List.length live
          /\ match confirmed (answer request s') with
             | Some updated =>
                 find (sameId configToken) live'
                 = Some (Token.set_remain_quota (Token.remain_quota updated) matched)
             | None => live' = live
             end).
Proof.
  intros listing fetched. repeat split.
  - intros H. rewrite (fetchTokens_empty apiUser accountInfo s H).
    destruct (succeeded _); eexists; simpl; rewrite <- ?app_assoc;
      (split; [reflexivity | reflexivity]).
  - apply fetchTokens_nonempty.
  - apply needsSupplement_iff.
  - apply needsSupplement_iff.
  - apply supplementTokens_cons.
  - apply supplement_miss.
  - intros configToken q live matched s' Hq Hpos Hfind current request.
    rewrite (supplement_hit apiUser configToken live s' Hfind).
    rewrite (@updatedTokenData_eq matched configToken q Hq Hpos).
    fold current. fold request.
    eexists. split; [reflexivity |].
    destruct (confirmed (answer request s')) as [updated |]; split; trivial.
    + apply assign_found_length.
    + apply find_assign_found; trivial.
      apply find_some in Hfind. apply Hfind.
Qed.

(** C3, as the code has it. When the live list fetched after the intent
    loop is empty, exactly one creation is requested, that of the fallback
    token (name [dw], unlimited quota); the list handed on is the re-fetched
    one when that creation succeeded and stays empty when it failed. When
    the fetched list is not empty, no creation is requested. The token list
    is surfaced on the profile exactly when the list handed on is not
    empty. *)
Theorem fallback_creation_when_list_empty apiUser accountInfo s :
  let listing := fetch_token_list apiUser in
  let create := fetch_token_create apiUser (requestBody fallbackConfig) in
  let fetched := listed (answer listing s) in
  let s1 := after listing s in
  (RequestBody.name (requestBody fallbackConfig) = "dw"
   /\ RequestBody.unlimited_quota (requestBody fallbackConfig) = Some true)
  /\ (fetched = [] ->
        exists t,
          trace (snd (fetchTokens apiUser accountInfo s)) = trace s1 ++ t
          /\ creations t = [(apiUser, requestBody fallbackConfig, answer create s1)]
          /\ fst (fetchTokens apiUser accountInfo s)
             = Returned (if succeeded (answer create s1)
                         then listed (answer listing (after create s1))
                         else []))
  /\ (fetched <> [] ->
        exists t,
          trace (snd (fetchTokens apiUser accountInfo s)) = trace s1 ++ t
          /\ creations t = [])
  /\ (forall final userData,
        UserData.tokens (surfaceTokens final userData)
        = match final with
          | [] => UserData.tokens userData
          | _ :: _ => Some (map tokenView final)
          end).
Proof.
  intros listing create fetched s1. repeat split.
  - intros H. rewrite (fetchTokens_empty apiUser accountInfo s H).
    fold listing create s1.
    destruct (succeeded (answer create s1)).
    + exists [Ev create (answer create s1);
              Ev listing (answer listing (after create s1))].
      simpl. rewrite <- app_assoc. repeat split.
    + exists [Ev create (answer create s1)]. repeat split.
  - intros H. rewrite (fetchTokens_nonempty apiUser accountInfo s H).
    fold listing fetched s1.
    assert (Hquiet : forall configured live,
               emits (fun e => creation e = None)
                     (supplementTokens apiUser configured live))
      by now apply supplementTokens_emits.
    destruct (Hquiet
                (filter needsSupplement
                   match configuredTokens accountInfo with
                   | Some configured => configured
                   | None => []
                   end) fetched s1) as [t [Ht HP]].
    exists t. split; trivial. now apply pick_none.
  - intros [| tk final] userData; reflexivity.
Qed.

(* ----------------------------------------------------------------- *)
(** *** The inventory client and the upload *)

Lemma positive_length A (l : list A) :
  (0 <? Z.of_nat (List.length l)) = match l with [] => false | _ :: _ => true end.
Proof. now destruct l. Qed.

Lemma addKeys_oversized keys s :
  (100 < List.length keys)%nat ->
  addKeys keys s = (Returned (rejected "单次最多添加100个Key"), s).
Proof.
  intros H. unfold addKeys.
  destruct (Z.eqb_spec (Z.of_nat (List.length keys)) 0) as [E | _]; [lia |].
  destruct (Z.ltb_spec 100 (Z.of_nat (List.length keys))) as [_ | E]; [| lia].
  reflexivity.
Qed.

Lemma addKeys_withinLimit keys : emits withinLimit (addKeys keys).
Proof.
  unfold addKeys.
  destruct (Z.eqb_spec (Z.of_nat (List.length keys)) 0) as [_ | E0];
    [apply emits_ret |].
  destruct (Z.ltb_spec 100 (Z.of_nat (List.length keys))) as [_ | E1];
    [apply emits_ret |].
  destruct (validateKeys 0 keys); [apply emits_ret |].
  apply emits_perform. intros r.
  unfold withinLimit. simpl. rewrite length_map. lia.
Qed.

(** [addKeys] asks the inventory at most once, and then with the keys it was
    given, defaults filled in. *)
Lemma addKeys_postings keys s :
  exists t,
    trace (snd (addKeys keys s)) = trace s ++ t
    /\ (postings t = [] \/ postings t = [map requestKey keys]).
Proof.
  unfold addKeys.
  destruct (Z.of_nat (List.length keys) =? 0);
    [exists []; simpl; rewrite app_nil_r; auto |].
  destruct (100 <? Z.of_nat (List.length keys));
    [exists []; simpl; rewrite app_nil_r; auto |].
  destruct (validateKeys 0 keys);
    [exists []; simpl; rewrite app_nil_r; auto |].
  rewrite perform_eq. simpl. eexists. split; [reflexivity |]. now right.
Qed.

Lemma uploadSellTokens_eq info tokens pendings s :
  uploadSellTokens (Some info) tokens pendings s
  = match keysToUpload info tokens pendings with
    | [] => (Returned tt, s)
    | keys => bind (addKeys keys) (fun _ => ret tt) s
    end.
Proof.
  unfold uploadSellTokens. rewrite !positive_length.
  destruct pendings as [| pending pendings]; trivial.
  now destruct (keysToUpload info tokens (pending :: pendings)).
Qed.

Lemma uploadSellTokens_postings info tokens pendings s :
  exists t,
    trace (snd (uploadSellTokens (Some info) tokens pendings s)) = trace s ++ t
    /\ (postings t = []
        \/ postings t = [map requestKey (keysToUpload info tokens pendings)]).
Proof.
  rewrite uploadSellTokens_eq.
  destruct (keysToUpload info tokens pendings) as [| key keys] eqn:E.
  - exists []. simpl. rewrite app_nil_r. auto.
  - unfold bind.
    destruct (addKeys_postings (key :: keys) s) as [t [Ht Hp]].
    exists t. split; trivial.
    destruct (addKeys (key :: keys) s) as [[a | e] s1]; trivial.
Qed.

Lemma dollars_eq remain_quota :
  (dollars remain_quota
   == match remain_quota with
      | Some q => inject_Z q / inject_Z quota_unit
      | None => 0
      end)%Q.
Proof.
  unfold dollars. destruct remain_quota as [q |]; simpl; [| reflexivity].
  destruct (Z.eqb_spec q 0); subst; reflexivity.
Qed.

(** C7, as the code has it. For every resale candidate, the candidate adds
    exactly one record to the batch when the first live token bearing its
    name has a non-empty key, and none otherwise (in particular none when no
    live token bears its name). The record has that token's key, key_type
    [anyrouter], is_sold false, quota equal to the candidate's remain_quota
    divided by 500000 (0 when the candidate has none), source_name equal to
    the account username, [&] and the token name, and the account reference.
    The batch is the concatenation of these records in candidate order, and
    it is handed to [addKeys] in one call unless it is empty. *)
Theorem resale_record_of_candidate accountInfo tokens pending :
  match find (sameName pending) tokens with
  | Some matchedToken =>
      if (Token.key matchedToken =? EmptyString)%string
      then keysFor accountInfo tokens pending = []
      else
        exists record quota,
          keysFor accountInfo tokens pending = [record]
          /\ KeyData.key record = Token.key matchedToken
          /\ KeyData.key_type record = "anyrouter"
          /\ KeyData.is_sold record = Some false
          /\ KeyData.quota record = Some quota
          /\ (quota == match Pending.remain_quota pending with
                       | Some q => inject_Z q / inject_Z 500000
                       | None => 0
                       end)%Q
          /\ KeyData.source_name record
             = Some (match AccountInfo.username accountInfo with
                     | Some name => name
                     | None => EmptyString
                     end ++ "&" ++ Pending.name pending)%string
          /\ KeyData.account_id record = AccountInfo._id accountInfo
  | None => keysFor accountInfo tokens pending = []
  end
  /\ ((forall t, In t tokens -> Token.name t <> Pending.name pending) ->
      keysFor accountInfo tokens pending = [])
  /\ (forall pendings,
        keysToUpload accountInfo tokens (pending :: pendings)
        = keysFor accountInfo tokens pending ++ keysToUpload accountInfo tokens pendings)
  /\ (forall pendings s,
        uploadSellTokens (Some accountInfo) tokens pendings s
        = match keysToUpload accountInfo tokens pendings with
          | [] => (Returned tt, s)
          | keys => bind (addKeys keys) (fun _ => ret tt) s
          end).
Proof.
  repeat split.
  - unfold keysFor.
    destruct (find (sameName pending) tokens) as [matchedToken |]; trivial.
    destruct (Token.key matchedToken =? EmptyString)%string; trivial.
    eexists. eexists. repeat split.
    + apply dollars_eq.
    + simpl. unfold str_or.
      destruct (AccountInfo.username accountInfo) as [name |]; trivial.
      destruct (String.eqb_spec name EmptyString); subst; trivial.
  - intros H. unfold keysFor.
    destruct (find (sameName pending) tokens) as [matchedToken |] eqn:E; trivial.
    apply find_some in E. destruct E as [Hin Hname].
    unfold sameName in Hname. apply String.eqb_eq in Hname.
    now apply H in Hin.
  - intros pendings s. apply uploadSellTokens_eq.
Qed.

(* ----------------------------------------------------------------- *)
(** *** Whole runs *)

Ltac emits_run :=
  repeat first
    [ apply getTokens_emits; intros ?
    | apply deleteToken_emits; intros ?
    | apply createToken_emits; intros ?
    | apply updateToken_emits; intros ?
    | apply manageTokens_emits; intros ? ?
    | apply supplementTokens_emits; intros ? ?
    | apply randomDelay_emits; intros ?
    | apply addKeys_withinLimit
    | emits_step ].

Lemma loginAndGetSession_withinLimit username password accountInfo :
  emits withinLimit (loginAndGetSession username password accountInfo).
Proof.
  unfold loginAndGetSession, loginBody, openPage, signIn, signedIn, cleanup,
    withProfile,
    settleBonus, fetchTokens, uploadSellTokens.
  emits_run; exact I.
Qed.


Lemma loginAndGetSession_returns username password accountInfo :
  returns (loginAndGetSession username password accountInfo).
Proof.
  unfold loginAndGetSession.
  apply returns_bind; [apply returns_assign | intros _].
  apply returns_try_finally.
  - apply returns_try_catch. intros e. apply returns_ret.
  - unfold cleanup. apply returns_try_catch. intros e. apply returns_ret.
Qed.

Lemma pace_eq b lo hi s :
  when b (randomDelay lo hi) s = (Returned tt, snd (when b (randomDelay lo hi) s)).
Proof. destruct b; simpl; trivial. now rewrite randomDelay_eq. Qed.

Lemma processFrom_step account rest results s :
  exists result s1,
    loginAndGetSession (Account.username account) (Account.password account) None s
    = (Returned result, s1)
    /\ processFrom (account :: rest) results s
       = processFrom rest (results ++ [resultEntry account result])
           (snd (when (0 <? Z.of_nat (List.length rest)) (randomDelay 5000 7000) s1)).
Proof.
  destruct (returns_eq
              (loginAndGetSession_returns (Account.username account)
                 (Account.password account) None) s) as [result Hrun].
  exists result. eexists. split; [exact Hrun |].
  simpl. unfold bind at 1. rewrite Hrun.
  unfold bind. now rewrite pace_eq.
Qed.

(** The entries pushed for accounts whose runs returned [results]. *)
Lemma processFrom_batch accounts entries s :
  exists results,
    processFrom accounts entries s
    = (Returned
         (entries ++ map (fun run => resultEntry (fst run) (snd run))
                         (combine accounts results)),
       snd (processFrom accounts entries s))
    /\ batch accounts s results (snd (processFrom accounts entries s)).
Proof.
  revert entries s.
  induction accounts as [| account rest IH]; intros entries s.
  - exists []. simpl. rewrite app_nil_r. split; [reflexivity | constructor].
  - destruct (processFrom_step account rest entries s) as [result [s1 [Hrun Hstep]]].
    rewrite Hstep.
    destruct (IH (entries ++ [resultEntry account result])
                 (snd (when (0 <? Z.of_nat (List.length rest)) (randomDelay 5000 7000) s1)))
      as [results [Heq Hbatch]].
    exists (result :: results). split.
    + rewrite Heq at 1. simpl. now rewrite <- app_assoc.
    + econstructor; eassumption.
Qed.

Lemma batch_entries accounts s results s' :
  batch accounts s results s' ->
  let entries :=
    map (fun run => resultEntry (fst run) (snd run)) (combine accounts results) in
  List.length entries = List.length accounts
  /\ map RunResult.username entries = map Account.username accounts
  /\ map RunResult.data entries = results
  /\ Forall2 (fun run entry =>
                RunResult.username entry = Account.username (fst run)
                /\ RunResult.data entry = snd run
                /\ (RunResult.success entry = true <-> snd run <> None))
             (combine accounts results) entries
  /\ Forall (fun entry =>
               RunResult.success entry = true <-> RunResult.data entry <> None)
            entries.
Proof.
  induction 1
    as [| account rest s result s1 results s2 Hrun Hrest (Hlen & Hnames & Hdata & Hall & Hok)].
  - simpl. repeat split; constructor.
  - simpl in *. repeat split; try congruence.
    + constructor; trivial. simpl. repeat split; trivial.
      * destruct result; simpl; congruence.
      * destruct result; simpl; congruence.
    + constructor; trivial. simpl. destruct result; simpl; split; congruence.
Qed.



(** C8, as the code has it. For every run, every request that reaches the
    inventory carries between 1 and 100 records: [addKeys] refuses a larger
    batch with an error and asks nothing. The upload is not split: the whole
    batch of matched records goes to [addKeys] in one call, so a run asks the
    inventory at most once, with the whole batch. *)
Theorem inventory_requests_within_limit username password accountInfo :
  (forall s, exists t,
      trace (snd (loginAndGetSession username password accountInfo s)) = trace s ++ t
      /\ Forall withinLimit t)
  /\ (forall keys s,
        (100 < List.length keys)%nat ->
        addKeys keys s = (Returned (rejected "单次最多添加100个Key"), s))
  /\ (forall info tokens pendings s,
        uploadSellTokens (Some info) tokens pendings s
        = match keysToUpload info tokens pendings with
          | [] => (Returned tt, s)
          | keys => bind (addKeys keys) (fun _ => ret tt) s
          end)
  /\ (forall info tokens pendings s, exists t,
        trace (snd (uploadSellTokens (Some info) tokens pendings s)) = trace s ++ t
        /\ (postings t = []
            \/ postings t = [map requestKey (keysToUpload info tokens pendings)])).
Proof.
  repeat split.
  - apply loginAndGetSession_withinLimit.
  - intros keys s H. now apply addKeys_oversized.
  - intros. apply uploadSellTokens_eq.
  - intros. apply uploadSellTokens_postings.
Qed.

(** C9. For every list of accounts the batch runner returns, without
    raising, one entry per account in input order. Every account is run,
    each from the state the previous one left, whatever the earlier runs
    returned; the entry of an account carries the account's username, what
    that account's own run returned as data, and success true exactly when
    that run returned a result that is not null. *)
Theorem processAccounts_one_entry_per_account accounts s :
  exists results entries,
    processAccounts accounts s = (Returned entries, snd (processAccounts accounts s))
    /\ batch accounts s results (snd (processAccounts accounts s))
    /\ List.length entries = List.length accounts
    /\ map RunResult.username entries = map Account.username accounts
    /\ map RunResult.data entries = results
    /\ Forall2 (fun run entry =>
                  RunResult.username entry = Account.username (fst run)
                  /\ RunResult.data entry = snd run
                  /\ (RunResult.success entry = true <-> snd run <> None))
               (combine accounts results) entries
    /\ Forall (fun entry =>
                 RunResult.success entry = true <-> RunResult.data entry <> None)
              entries.
Proof.
  unfold processAccounts.
  destruct (processFrom_batch accounts [] s) as [results [Heq Hbatch]].
  exists results. eexists. split; [exact Heq |]. split; [exact Hbatch |].
  exact (batch_entries Hbatch).
Qed.

(* ----------------------------------------------------------------- *)
(** *** Acquiring and releasing the browser *)

Lemma calls_app k t t' : calls k (t ++ t') = (calls k t + calls k t')%nat.
Proof. unfold calls. now rewrite filter_app, length_app. Qed.

Lemma resolutions_app k t t' :
  resolutions k (t ++ t') = (resolutions k t + resolutions k t')%nat.
Proof. unfold resolutions. now rewrite filter_app, length_app. Qed.

Lemma inert_counts t :
  Forall inert t ->
  resolutions Launch t = 0%nat /\ resolutions NewContext t = 0%nat
  /\ resolutions NewPage t = 0%nat /\ calls PageClose t = 0%nat
  /\ calls ContextClose t = 0%nat /\ calls BrowserClose t = 0%nat.
Proof.
  induction 1 as [| [R c r] t He _ IH]; [repeat split |].
  destruct c; simpl in He; try contradiction; exact IH.
Qed.

Ltac keeps_run :=
  repeat first
    [ apply getTokens_keeps
    | apply manageTokens_keeps
    | apply supplementTokens_keeps
    | apply createToken_keeps
    | apply randomDelay_keeps
    | keeps_step ].

Lemma signIn_inert username password accountInfo :
  emits inert (signIn username password accountInfo).
Proof.
  unfold signIn, signedIn, withProfile, settleBonus, fetchTokens, uploadSellTokens,
    addKeys.
  emits_run; exact I.
Qed.

Lemma signIn_keeps username password accountInfo :
  keeps (signIn username password accountInfo).
Proof.
  unfold signIn, signedIn, withProfile, settleBonus, fetchTokens, uploadSellTokens,
    addKeys.
  keeps_run.
Qed.

(** After [openPage], started with the three locals null, a local is set
    exactly when its acquisition resolved, and nothing was released. *)
Lemma openPage_opened s :
  vars s = mkLocals false false false ->
  exists t,
    trace (snd (openPage s)) = trace s ++ t
    /\ resolutions Launch t = Nat.b2n (browser (vars (snd (openPage s))))
    /\ resolutions NewContext t = Nat.b2n (context (vars (snd (openPage s))))
    /\ resolutions NewPage t = Nat.b2n (page (vars (snd (openPage s))))
    /\ calls PageClose t = 0%nat /\ calls ContextClose t = 0%nat
    /\ calls BrowserClose t = 0%nat.
Proof.
  intros Hvars. unfold openPage, bind, perform, assign. simpl.
  repeat match goal with
         | |- context [handle ?c ?w] =>
             destruct (handle c w) as [[? | []] ?]; simpl
         end;
    rewrite ?Hvars, <- ?app_assoc; simpl;
    eexists; (split; [reflexivity | repeat split]).
Qed.

(** The [finally] block releases what the locals hold, when the release
    calls go through. *)
Lemma cleanup_closes s :
  exists t,
    trace (snd (cleanup s)) = trace s ++ t
    /\ (resolutions Launch t = 0%nat /\ resolutions NewContext t = 0%nat
        /\ resolutions NewPage t = 0%nat)
    /\ (Forall smooth t ->
        calls PageClose t = Nat.b2n (page (vars s))
        /\ calls ContextClose t = Nat.b2n (context (vars s))
        /\ calls BrowserClose t = Nat.b2n (browser (vars s))).
Proof.
  unfold cleanup, try_catch, bind, read_vars, when, perform. simpl.
  destruct (vars s) as [[|] [|] [|]]; simpl;
    repeat match goal with
           | |- context [handle ?c ?w] =>
               destruct (handle c w) as [[? | [|]] ?]; simpl
           | |- context [handle ?c ?w] =>
               destruct (handle c w) as [[? | []] ?]; simpl
           end;
    rewrite <- ?app_assoc; simpl;
    first [ exists []; split; [now rewrite app_nil_r |]
          | eexists; split; [reflexivity |] ];
    (split; [now repeat split |]);
    intros Hs;
    repeat match goal with
           | H : Forall smooth (_ :: _) |- _ => inversion H; subst; clear H
           end;
    unfold smooth in *; simpl in *; try discriminate; repeat split.
Qed.

(** The body of the [try] with its [catch]: started with the three locals
    null, it ends with a local set exactly when its acquisition resolved,
    and releases nothing. *)
Lemma caught_body_opened username password accountInfo s :
  vars s = mkLocals false false false ->
  let s' := snd (try_catch (loginBody username password accountInfo)
                           (fun _ => ret None) s) in
  exists t,
    trace s' = trace s ++ t
    /\ resolutions Launch t = Nat.b2n (browser (vars s'))
    /\ resolutions NewContext t = Nat.b2n (context (vars s'))
    /\ resolutions NewPage t = Nat.b2n (page (vars s'))
    /\ calls PageClose t = 0%nat /\ calls ContextClose t = 0%nat
    /\ calls BrowserClose t = 0%nat.
Proof.
  intros Hvars. unfold try_catch, loginBody, bind.
  destruct (openPage_opened s Hvars) as [ta [Hta Ha]].
  destruct (openPage s) as [[[] | e] sa]; simpl in *.
  - pose proof (signIn_inert username password accountInfo sa) as [tb [Htb Hb]].
    pose proof (signIn_keeps username password accountInfo sa) as Hk.
    apply inert_counts in Hb.
    destruct Ha as (Ha1 & Ha2 & Ha3 & Ha4 & Ha5 & Ha6).
    destruct Hb as (Hb1 & Hb2 & Hb3 & Hb4 & Hb5 & Hb6).
    revert Htb Hk.
    destruct (signIn username password accountInfo sa) as [[r | e] sb];
      simpl; intros Hsb Hvb;
      exists (ta ++ tb); rewrite Hsb, Hta, app_assoc, Hvb;
      rewrite !resolutions_app, !calls_app,
        Ha1, Ha2, Ha3, Ha4, Ha5, Ha6, Hb1, Hb2, Hb3, Hb4, Hb5, Hb6, !Nat.add_0_r;
      repeat split.
  - exists ta. split; trivial.
Qed.

(** X18. Every per-account run returns (it never raises), whatever happens
    in it. When the release calls of the run go through (no [close] raises
    and the page is not reported closed already), the page, the context and
    the browser are each closed as many times as they were acquired in this
    run, which is at most once. *)
Theorem resources_released_once username password accountInfo s :
  (exists result,
     fst (loginAndGetSession username password accountInfo s) = Returned result)
  /\ forall t,
       trace (snd (loginAndGetSession username password accountInfo s)) = trace s ++ t ->
       Forall smooth t ->
       (calls PageClose t = resolutions NewPage t /\ (calls PageClose t <= 1)%nat)
       /\ (calls ContextClose t = resolutions NewContext t
           /\ (calls ContextClose t <= 1)%nat)
       /\ (calls BrowserClose t = resolutions Launch t
           /\ (calls BrowserClose t <= 1)%nat).
Proof.
  split; [apply loginAndGetSession_returns |]. intros t Ht Hsmooth.
  revert Ht. unfold loginAndGetSession, bind, assign, try_finally. simpl.
  set (s0 := mkState (world s) (trace s) (all_null (vars s))).
  destruct (@caught_body_opened username password accountInfo s0 eq_refl)
    as [tb [Htb Hb]].
  destruct (try_catch (loginBody username password accountInfo)
                      (fun _ => ret None) s0) as [o sb].
  simpl in Htb, Hb.
  destruct (cleanup_closes sb) as [tc [Htc [Hopen Hclose]]].
  assert (Hsc : trace (snd (let (o', s'') := cleanup sb in
                            match o' with
                            | Returned _ => (o, s'')
                            | Threw e => (@Threw (option Session.t) e, s'')
                            end)) = trace (snd (cleanup sb)))
    by (destruct (cleanup sb) as [[[] | e] sc]; reflexivity).
  intros Ht.
  match type of Ht with ?l = _ => match type of Hsc with ?l' = _ =>
    change l with l' in Ht end end.
  rewrite Hsc, Htc, Htb, <- app_assoc in Ht. simpl in Ht.
  apply app_inv_head in Ht. subst t.
  apply Forall_app in Hsmooth. destruct Hsmooth as [_ Hsmooth].
  destruct (Hclose Hsmooth) as (Hp & Hc & Hbr).
  rewrite !calls_app, !resolutions_app, Hp, Hc, Hbr.
  destruct Hopen as (-> & -> & ->).
  destruct Hb as (-> & -> & -> & -> & -> & ->).
  rewrite !Nat.add_0_r. simpl.
  repeat split;
    try (destruct (page (vars sb)); simpl; lia);
    try (destruct (context (vars sb)); simpl; lia);
    try (destruct (browser (vars sb)); simpl; lia).
Qed.

(* ================================================================= *)
(** ** Further properties of the code *)

(** *** The inventory client *)

Lemma Qnegative_false q : Qnegative q = false <-> (0 <= q)%Q.
Proof.
  unfold Qnegative, Qle. simpl. rewrite Z.ltb_ge. lia.
Qed.

Lemma includes_In l x : includes l x = true <-> In x l.
Proof.
  unfold includes. rewrite existsb_exists. split.
  - intros [y [Hin Heq]]. apply String.eqb_eq in Heq. now subst.
  - intros Hin. exists x. split; trivial. apply String.eqb_refl.
Qed.

Lemma string_app_assoc (a b c : string) : ((a ++ b) ++ c = a ++ b ++ c)%string.
Proof. induction a as [| x a IH]; simpl; congruence. Qed.

Lemma too_long_false n (s : string) :
  (n <? Z.of_nat (length_ s)) = false <-> (Z.of_nat (length_ s) <= n).
Proof. apply Z.ltb_ge. Qed.

(** The six tests of the client, all negative, say [WellFormedKey]. *)
Lemma WellFormedKey_tests keyData :
  WellFormedKey keyData
  <-> (KeyData.key keyData =? EmptyString)%string = false
      /\ (KeyData.key_type keyData =? EmptyString)%string = false
      /\ (500 <? Z.of_nat (length_ (KeyData.key keyData))) = false
      /\ negb (includes key_types (KeyData.key_type keyData)) = false
      /\ match KeyData.quota keyData with
         | Some q => Qnegative q
         | None => false
         end = false
      /\ match KeyData.source_name keyData with
         | Some n => 200 <? Z.of_nat (length_ n)
         | None => false
         end = false.
Proof.
  unfold WellFormedKey. split.
  - intros (Hkey & Hlen & Htype & Hquota & Hname). repeat split.
    + now apply String.eqb_neq.
    + apply String.eqb_neq. intros E. rewrite E in Htype.
      simpl in Htype. intuition discriminate.
    + apply too_long_false. lia.
    + apply negb_false_iff. now apply includes_In.
    + destruct (KeyData.quota keyData) as [q |]; trivial.
      apply Qnegative_false. now apply Hquota.
    + destruct (KeyData.source_name keyData) as [n |]; trivial.
      apply too_long_false. specialize (Hname n eq_refl). lia.
  - intros (Hkey & _ & Hlen & Htype & Hquota & Hname). repeat split.
    + now apply String.eqb_neq.
    + apply too_long_false in Hlen. lia.
    + apply includes_In. now apply negb_false_iff.
    + intros q E. rewrite E in Hquota. now apply Qnegative_false.
    + intros n E. rewrite E in Hname. apply too_long_false in Hname. lia.
Qed.

Lemma validateKeys_pass i keyData keys :
  WellFormedKey keyData ->
  validateKeys i (keyData :: keys) = validateKeys (i + 1) keys.
Proof.
  intros H. apply WellFormedKey_tests in H.
  destruct H as (H1 & H2 & H3 & H4 & H5 & H6).
  cbn [validateKeys]. now rewrite H1, H2, H3, H4, H5, H6.
Qed.

Lemma validateKeys_stop i keyData keys :
  ~ WellFormedKey keyData ->
  exists reason,
    validateKeys i (keyData :: keys)
    = Some ("第" ++ String_ (i + 1) ++ "个Key" ++ reason)%string.
Proof.
  intros H. rewrite WellFormedKey_tests in H. cbn [validateKeys].
  repeat match goal with
         | |- context [if ?b then _ else _] =>
             destruct b eqn:?;
             [ rewrite !string_app_assoc; eexists; reflexivity |]
         end.
  exfalso. apply H. repeat split; assumption.
Qed.

Lemma validateKeys_all i keys :
  Forall WellFormedKey keys -> validateKeys i keys = None.
Proof.
  intros H. revert i.
  induction H as [| keyData keys Hk _ IH]; intros i; trivial.
  rewrite validateKeys_pass by assumption. apply IH.
Qed.

Lemma validateKeys_None i keys :
  validateKeys i keys = None -> Forall WellFormedKey keys.
Proof.
  revert i. induction keys as [| keyData keys IH]; intros i H; constructor.
  - apply WellFormedKey_tests. cbn [validateKeys] in H.
    repeat match type of H with
           | (if ?b then _ else _) = None =>
               destruct b eqn:?; [discriminate |]
           end.
    repeat split; assumption.
  - assert (Hk : WellFormedKey keyData).
    { apply WellFormedKey_tests. cbn [validateKeys] in H.
      repeat match type of H with
             | (if ?b then _ else _) = None =>
                 destruct b eqn:?; [discriminate |]
             end.
      repeat split; assumption. }
    rewrite validateKeys_pass in H by assumption. eapply IH, H.
Qed.

Lemma validateKeys_first_bad i good bad rest :
  Forall WellFormedKey good ->
  ~ WellFormedKey bad ->
  exists reason,
    validateKeys i (good ++ bad :: rest)
    = Some ("第" ++ String_ (i + Z.of_nat (List.length good) + 1) ++ "个Key" ++ reason)%string.
Proof.
  intros Hgood Hbad. revert i.
  induction Hgood as [| keyData good Hk _ IH]; intros i.
  - simpl List.length. simpl app. rewrite Z.add_0_r.
    now apply validateKeys_stop.
  - simpl app. rewrite validateKeys_pass by assumption.
    destruct (IH (i + 1)) as [reason Hr]. exists reason. rewrite Hr.
    replace (i + Z.of_nat (List.length (keyData :: good)) + 1)
      with (i + 1 + Z.of_nat (List.length good) + 1); trivial.
    change (List.length (keyData :: good)) with (S (List.length good)).
    rewrite Nat2Z.inj_succ. lia.
Qed.

(** X1. A batch of 1 to 100 keys that all pass the field rules goes to the
    inventory, as one request holding every key with its defaults filled
    in, in order. *)
Theorem addKeys_posts_well_formed_batch keys s :
  (1 <= List.length keys <= 100)%nat ->
  Forall WellFormedKey keys ->
  addKeys keys s = perform (post_addKeys (map requestKey keys)) s.
Proof.
  intros Hn Hall. unfold addKeys.
  destruct (Z.eqb_spec (Z.of_nat (List.length keys)) 0) as [E | _]; [lia |].
  destruct (Z.ltb_spec 100 (Z.of_nat (List.length keys))) as [E | _]; [lia |].
  now rewrite validateKeys_all.
Qed.

(** X2. Whatever batch [addKeys] is given, a request reaches the inventory
    only if the batch has 1 to 100 keys that all pass the field rules, and
    then it is that batch; otherwise nothing is asked. *)
Theorem addKeys_posts_only_well_formed keys s t batch :
  trace (snd (addKeys keys s)) = trace s ++ t ->
  In batch (postings t) ->
  batch = map requestKey keys
  /\ (1 <= List.length keys <= 100)%nat
  /\ Forall WellFormedKey keys.
Proof.
  unfold addKeys.
  destruct (Z.eqb_spec (Z.of_nat (List.length keys)) 0) as [E0 | E0];
    [| destruct (Z.ltb_spec 100 (Z.of_nat (List.length keys))) as [E1 | E1];
       [| destruct (validateKeys 0 keys) as [msg |] eqn:Ev ] ];
    simpl; intros Ht Hin;
    try (rewrite <- (app_nil_r (trace s)) in Ht at 1;
         apply app_inv_head in Ht; subst t; contradiction).
  rewrite perform_eq in Ht. simpl in Ht.
  apply app_inv_head in Ht. subst t. simpl in Hin.
  destruct Hin as [<- | []]. repeat split; try lia.
  eapply validateKeys_None, Ev.
Qed.

(** X3. When a batch of at most 100 keys holds a key that breaks a field
    rule, [addKeys] asks nothing and answers with an error that starts with
    the one-based position of the first such key. *)
Theorem addKeys_names_first_bad_key good bad rest s :
  Forall WellFormedKey good ->
  ~ WellFormedKey bad ->
  (List.length (good ++ bad :: rest) <= 100)%nat ->
  exists reason,
    addKeys (good ++ bad :: rest) s
    = (Returned
         (rejected ("第" ++ String_ (Z.of_nat (List.length good) + 1) ++ "个Key" ++ reason)%string),
       s).
Proof.
  intros Hgood Hbad Hn. unfold addKeys.
  destruct (Z.eqb_spec (Z.of_nat (List.length (good ++ bad :: rest))) 0) as [E | _].
  { rewrite length_app in E. simpl in E. lia. }
  destruct (Z.ltb_spec 100 (Z.of_nat (List.length (good ++ bad :: rest)))) as [E | _];
    [lia |].
  destruct (validateKeys_first_bad 0 rest Hgood Hbad) as [reason Hr].
  exists reason. now rewrite Hr.
Qed.

Lemma addKeys_singleton keyData s :
  addKeys [keyData] s
  = match validateKeys 0 [keyData] with
    | Some msg => (Returned (rejected msg), s)
    | None => perform (post_addKeys [requestKey keyData]) s
    end.
Proof.
  unfold addKeys. now destruct (validateKeys 0 [keyData]).
Qed.

(** X4. [addKey] hands a key over exactly when the key passes the field
    rules, the same rules under which [addKeys] hands over the batch made of
    that one key; the request is the key with its defaults filled in, and a
    key that breaks a rule is answered with a failure. *)
Theorem addKey_posts_iff_well_formed keyData :
  (WellFormedKey keyData
   <-> addKey keyData = Posted "/ai-key-admin/addKey" (requestKey keyData))
  /\ (~ WellFormedKey keyData ->
      exists message, addKey keyData = Refused (rejected message))
  /\ (forall s,
        WellFormedKey keyData
        <-> addKeys [keyData] s = perform (post_addKeys [requestKey keyData]) s).
Proof.
  assert (Hcases :
            (WellFormedKey keyData
             /\ addKey keyData = Posted "/ai-key-admin/addKey" (requestKey keyData))
            \/ (~ WellFormedKey keyData
                /\ exists message, addKey keyData = Refused (rejected message))).
  { rewrite WellFormedKey_tests. unfold addKey, requestKey. cbv zeta.
    replace (Qnegative match KeyData.quota keyData with
                       | Some q => q
                       | None => 0%Q
                       end)
      with (match KeyData.quota keyData with
            | Some q => Qnegative q
            | None => false
            end)
      by now destruct (KeyData.quota keyData).
    repeat match goal with
           | |- context [if ?b then _ else _] =>
               destruct b eqn:?;
               [ right; split; [intuition congruence | eexists; reflexivity] |]
           end.
    left. repeat split; assumption. }
  split; [split | split; [| intros s; split]].
  - destruct Hcases as [[_ H] | [Hbad _]]; tauto.
  - destruct Hcases as [[H _] | [_ [message H]]]; trivial.
    rewrite H. discriminate.
  - destruct Hcases as [[H _] | [_ H]]; tauto.
  - intros H. rewrite addKeys_singleton.
    now rewrite (@validateKeys_all 0 [keyData]) by now constructor.
  - intros H.
    destruct Hcases as [[Hk _] | [Hbad _]]; trivial.
    destruct (validateKeys_stop 0 [] Hbad) as [reason Hr].
    rewrite addKeys_singleton, Hr, perform_eq in H.
    apply (f_equal (fun r => List.length (trace (snd r)))) in H.
    simpl in H. rewrite length_app in H. simpl in H. lia.
Qed.

Lemma badKeyType_false v : badKeyType v = false <-> absentOrKeyType v.
Proof.
  unfold absentOrKeyType. destruct v as [| | b | q | s]; simpl.
  - split; [now left | reflexivity].
  - split; [discriminate | intros [H | (s' & H & _)]; discriminate].
  - split; [discriminate | intros [H | (s' & H & _)]; discriminate].
  - split; [discriminate | intros [H | (s' & H & _)]; discriminate].
  - split.
    + intros H. right. exists s. split; trivial.
      apply (includes_In key_types). now apply negb_false_iff.
    + intros [H | (s' & [= <-] & H)]; [discriminate |].
      apply negb_false_iff. now apply (includes_In key_types).
Qed.

Lemma badNumber_false v : badNumber v = false <-> absentOrAmount v.
Proof.
  unfold absentOrAmount. destruct v as [| | b | q | s]; simpl.
  - split; [now left | reflexivity].
  - split; [discriminate | intros [H | (q' & H & _)]; discriminate].
  - split; [discriminate | intros [H | (q' & H & _)]; discriminate].
  - split.
    + intros H. right. exists q. split; trivial. now apply Qnegative_false.
    + intros [H | (q' & [= <-] & H)]; [discriminate |]. now apply Qnegative_false.
  - split; [discriminate | intros [H | (q' & H & _)]; discriminate].
Qed.

(** X5. [updateKeyInfo] hands an update over exactly when the record id is
    not empty, the update has at least one member, names neither [_id] nor
    [create_date], has a key_type that is absent or one of the three types,
    and has quota, remain_quota and used_quota each absent or a non-negative
    number; what it hands over is the id and the update, untouched; any
    other update is answered with a failure. *)
Theorem updateKeyInfo_posts_iff _id updateData :
  (updateKeyInfo _id updateData = Posted "/ai-key-admin/updateKeyInfo" (_id, updateData)
   <-> _id <> EmptyString
       /\ updateData <> []
       /\ has updateData "_id" = false
       /\ has updateData "create_date" = false
       /\ absentOrKeyType (get updateData "key_type")
       /\ (forall field,
             In field ["quota"; "remain_quota"; "used_quota"] ->
             absentOrAmount (get updateData field)))
  /\ (forall url body,
        updateKeyInfo _id updateData = Posted url body ->
        url = "/ai-key-admin/updateKeyInfo" /\ body = (_id, updateData))
  /\ (forall result,
        updateKeyInfo _id updateData = Refused result ->
        ApiResult.success result = false).
Proof.
  unfold updateKeyInfo.
  destruct (String.eqb_spec _id EmptyString) as [E1 | E1].
  { repeat split; try discriminate; try tauto. now intros result [= <-]. }
  destruct (Z.eqb_spec (Z.of_nat (List.length updateData)) 0) as [E2 | E2].
  { repeat split; try discriminate.
    - intros (_ & H & _). destruct updateData; [congruence | simpl in E2; lia].
    - now intros result [= <-]. }
  cbn [find forbiddenFields numericFields].
  destruct (has updateData "_id") eqn:E3.
  { repeat split; try discriminate.
    - intros (_ & _ & H & _). discriminate.
    - now intros result [= <-]. }
  destruct (has updateData "create_date") eqn:E4.
  { repeat split; try discriminate.
    - intros (_ & _ & _ & H & _). discriminate.
    - now intros result [= <-]. }
  destruct (badKeyType (get updateData "key_type")) eqn:E5.
  { repeat split; try discriminate.
    - intros (_ & _ & _ & _ & H & _). apply badKeyType_false in H. congruence.
    - now intros result [= <-]. }
  assert (Hnum : forall field,
             badNumber (get updateData field) = true ->
             In field ["quota"; "remain_quota"; "used_quota"] ->
             ~ (forall field',
                  In field' ["quota"; "remain_quota"; "used_quota"] ->
                  absentOrAmount (get updateData field'))).
  { intros field Hbad Hin H. apply H in Hin. apply badNumber_false in Hin.
    congruence. }
  destruct (badNumber (get updateData "quota")) eqn:E6.
  { repeat split; try discriminate.
    - intros (_ & _ & _ & _ & _ & H). exfalso.
      apply (Hnum _ E6); [simpl; tauto | exact H].
    - now intros result [= <-]. }
  destruct (badNumber (get updateData "remain_quota")) eqn:E7.
  { repeat split; try discriminate.
    - intros (_ & _ & _ & _ & _ & H). exfalso.
      apply (Hnum _ E7); [simpl; tauto | exact H].
    - now intros result [= <-]. }
  destruct (badNumber (get updateData "used_quota")) eqn:E8.
  { repeat split; try discriminate.
    - intros (_ & _ & _ & _ & _ & H). exfalso.
      apply (Hnum _ E8); [simpl; tauto | exact H].
    - now intros result [= <-]. }
  repeat split; try discriminate; try congruence.
  - intros ->. simpl in E2. lia.
  - now apply badKeyType_false.
  - intros field [<- | [<- | [<- | []]]]; now apply badNumber_false.
Qed.

(* ----------------------------------------------------------------- *)
(** *** The four token calls *)

Lemma ok_200 status success :
  (status =? 200) && success = true <-> status = 200 /\ success = true.
Proof. rewrite andb_true_iff, Z.eqb_eq. tauto. Qed.

(** X6. [getTokens] never raises and asks the gateway once; it returns a
    non-empty list only when the answer has status 200, [success] true and
    that list as data; a raised error, an error in the page, another status,
    [success] false, missing data or a [null] body all give the empty
    list. *)
Theorem getTokens_isolates_failures apiUser s :
  exists tokens,
    getTokens apiUser s = (Returned tokens, after (fetch_token_list apiUser) s)
    /\ (tokens = []
        \/ exists message,
             answer (fetch_token_list apiUser) s
             = inr (Replied 200 true message (Some tokens))).
Proof.
  rewrite getTokens_eq. eexists. split; [reflexivity |].
  destruct (answer (fetch_token_list apiUser) s)
    as [e | [err | status success message [tokens |] | status]]; simpl; auto.
  destruct ((status =? 200) && success) eqn:E; auto.
  apply ok_200 in E. destruct E as [-> ->]. right. now exists message.
Qed.

(** X7. [deleteToken], [createToken] and [updateToken] never raise and ask
    the gateway once each; the first two return true exactly when the answer
    has status 200 and [success] true, and [updateToken] returns a token
    exactly when such an answer carries it; every other answer (a raised
    error, an error in the page, another status, [success] false, a [null]
    body) gives false or null. *)
Theorem token_mutations_isolate_failures apiUser tokenId tokenConfig tokenData s :
  (exists deleted,
      deleteToken apiUser tokenId s
      = (Returned deleted, after (fetch_token_delete apiUser tokenId) s)
      /\ (deleted = true
          <-> exists message data,
                answer (fetch_token_delete apiUser tokenId) s
                = inr (Replied 200 true message data)))
  /\ (exists created,
        createToken apiUser tokenConfig s
        = (Returned created,
           after (fetch_token_create apiUser (requestBody tokenConfig)) s)
        /\ (created = true
            <-> exists message data,
                  answer (fetch_token_create apiUser (requestBody tokenConfig)) s
                  = inr (Replied 200 true message data)))
  /\ (exists updateResult,
        updateToken apiUser tokenData s
        = (Returned updateResult, after (fetch_token_update apiUser tokenData) s)
        /\ (forall updated,
              updateResult = Some updated
              <-> exists message,
                    answer (fetch_token_update apiUser tokenData) s
                    = inr (Replied 200 true message (Some updated)))).
Proof.
  rewrite deleteToken_eq, createToken_eq, updateToken_eq.
  repeat split; try (eexists; split; [reflexivity |]).
  - destruct (answer (fetch_token_delete apiUser tokenId) s)
      as [e | [err | status success message data | status]]; simpl; split;
      try discriminate; try (intros (m & d & H); discriminate).
    + intros H. apply ok_200 in H. destruct H as [-> ->]. now exists message, data.
    + intros (m & d & [= -> -> _ _]). reflexivity.
  - destruct (answer (fetch_token_create apiUser (requestBody tokenConfig)) s)
      as [e | [err | status success message data | status]]; simpl; split;
      try discriminate; try (intros (m & d & H); discriminate).
    + intros H. apply ok_200 in H. destruct H as [-> ->]. now exists message, data.
    + intros (m & d & [= -> -> _ _]). reflexivity.
  - intros updated.
    destruct (answer (fetch_token_update apiUser tokenData) s)
      as [e | [err | status success message data | status]]; simpl; split;
      try discriminate; try (intros (m & H); discriminate).
    + destruct ((status =? 200) && success) eqn:E; [| discriminate].
      apply ok_200 in E. destruct E as [-> ->]. intros ->. now exists message.
    + intros (m & [= -> -> _ ->]). reflexivity.
Qed.

(* ----------------------------------------------------------------- *)
(** *** The intent loop and the supplement loop *)

Lemma requests_app t t' : requests (t ++ t') = requests t ++ requests t'.
Proof. apply map_app. Qed.

(** X8. The intent loop never raises, whatever the gateway answers, and its
    calls are, in intent order: one deletion of the intent's id for an intent
    with an id that is marked deleted, one creation for an intent without an
    id, and nothing for an intent with an id that is not marked deleted. A
    refused or failed call does not stop the loop. *)
Theorem manageTokens_requests apiUser tokens pending s :
  exists result t,
    manageTokens apiUser tokens pending s
    = (Returned result, snd (manageTokens apiUser tokens pending s))
    /\ trace (snd (manageTokens apiUser tokens pending s)) = trace s ++ t
    /\ requests t = flat_map (intentRequests apiUser) tokens.
Proof.
  revert pending s.
  induction tokens as [| tokenConfig tokens IH]; intros pending s.
  - exists pending, []. simpl. now rewrite app_nil_r.
  - cbn [manageTokens flat_map]. unfold intentRequests at 1, truthy_num.
    destruct (TokenConfig.id tokenConfig) as [id |]; cbn [negb andb num_or].
    + destruct (Z.eqb_spec id 0) as [E | E]; cbn [negb andb].
      * unfold bind. rewrite createToken_eq.
        match goal with
        | |- context [if ?b then _ else _] => destruct b
        end;
          match goal with
          | |- context [manageTokens _ _ ?p ?s1] =>
              destruct (IH p s1) as (result & t & Heq & Ht & Hreq)
          end;
          exists result; eexists (_ :: t);
          rewrite Heq at 1; rewrite Ht, trace_after, <- app_assoc;
          (split; [reflexivity |]); (split; [reflexivity |]);
          cbn [requests map app]; f_equal; exact Hreq.
      * destruct (TokenConfig.is_deleted tokenConfig).
        -- unfold bind. rewrite deleteToken_eq.
           match goal with
           | |- context [manageTokens _ _ ?p ?s1] =>
               destruct (IH p s1) as (result & t & Heq & Ht & Hreq)
           end.
           exists result. eexists (_ :: t).
           rewrite Heq at 1. rewrite Ht, trace_after, <- app_assoc.
           split; [reflexivity |]. split; [reflexivity |].
           cbn [requests map app]. f_equal. exact Hreq.
        -- destruct (IH pending s) as (result & t & Heq & Ht & Hreq).
           exists result, t. now rewrite Heq at 1.
    + unfold bind. rewrite createToken_eq.
      match goal with
      | |- context [if ?b then _ else _] => destruct b
      end;
        match goal with
        | |- context [manageTokens _ _ ?p ?s1] =>
            destruct (IH p s1) as (result & t & Heq & Ht & Hreq)
        end;
        exists result; eexists (_ :: t);
        rewrite Heq at 1; rewrite Ht, trace_after, <- app_assoc;
        (split; [reflexivity |]); (split; [reflexivity |]);
        cbn [requests map app]; f_equal; exact Hreq.
Qed.

Lemma sansQuota_assign_found p q live :
  map sansQuota (assign_found p (Token.set_remain_quota q) live) = map sansQuota live.
Proof.
  induction live as [| token live IH]; trivial. simpl.
  destruct (p token); simpl; [reflexivity | now rewrite IH].
Qed.

(** X9. The supplement loop never raises and never adds, drops, reorders or
    renames a token: the list it returns is the list it was given but for
    remain_quota values. Its calls are updates only, at most one for each
    intent it was given. *)
Theorem supplementTokens_keeps_tokens apiUser configured live s :
  exists live' t,
    supplementTokens apiUser configured live s
    = (Returned live', snd (supplementTokens apiUser configured live s))
    /\ trace (snd (supplementTokens apiUser configured live s)) = trace s ++ t
    /\ map sansQuota live' = map sansQuota live
    /\ Forall (fun e => event_kind e = TokenUpdate) t
    /\ (List.length t <= List.length configured)%nat.
Proof.
  revert live s.
  induction configured as [| configToken rest IH]; intros live s.
  - exists live, []. simpl. rewrite app_nil_r. repeat split; auto.
  - cbn [supplementTokens].
    destruct (find (sameId configToken) live) as [matched |].
    + unfold bind. rewrite updateToken_eq.
      destruct (confirmed _) as [updated |];
        match goal with
        | |- context [supplementTokens _ _ ?l ?s1] =>
            destruct (IH l s1) as (live' & t & Heq & Ht & Hsame & Hkind & Hlen)
        end;
        exists live'; eexists (_ :: t);
        rewrite Heq at 1; rewrite Ht, trace_after, <- app_assoc;
        rewrite ?sansQuota_assign_found in Hsame;
        (repeat split; trivial; [constructor; trivial | simpl; lia]).
    + destruct (IH live s) as (live' & t & Heq & Ht & Hsame & Hkind & Hlen).
      exists live', t. rewrite Heq at 1. repeat split; trivial. simpl. lia.
Qed.

(* ----------------------------------------------------------------- *)
(** *** The stages of a run *)

Lemma bind_perform R A (c : call R) (k : R -> M A) s :
  bind (perform c) k s
  = match answer c s with
    | inr v => k v (after c s)
    | inl e => (Threw e, after c s)
    end.
Proof. unfold bind. rewrite perform_eq. now destruct (answer c s). Qed.

Lemma bind_randomDelay A lo hi (k : unit -> M A) s :
  bind (randomDelay lo hi) k s = k tt (after (setTimeout lo hi) s).
Proof. unfold bind. now rewrite randomDelay_eq. Qed.

Lemma loginData_Some loginResult d :
  loginData loginResult = Some d ->
  exists status message,
    loginResult = Replied status true message (Some d)
    /\ http_ok status = true /\ UserData.id d <> 0.
Proof.
  destruct loginResult as [err | status success message [d' |] | status]; simpl;
    try discriminate.
  - destruct (http_ok status) eqn:Hok, success; simpl; try discriminate.
    destruct (Z.eqb_spec (UserData.id d') 0); [discriminate |].
    intros [= <-]. now exists status, message.
  - destruct (http_ok status && success); discriminate.
Qed.

(** [signIn], stage by stage. *)
Lemma signIn_stages username password accountInfo s :
  signIn username password accountInfo s
  = match answer (page_goto baseUrl) s with
    | inl e => (Threw e, after (page_goto baseUrl) s)
    | inr _ =>
        let s1 := after (setTimeout 2000 3000) (after (page_goto baseUrl) s) in
        match answer (fetch_login username password) s1 with
        | inl e => (Threw e, after (fetch_login username password) s1)
        | inr loginResult =>
            match loginData loginResult with
            | None =>
                (if unreadable loginResult then Threw null_read else Returned None,
                 after (fetch_login username password) s1)
            | Some d =>
                establish accountInfo d (after (fetch_login username password) s1)
            end
        end
    end.
Proof.
  unfold signIn. rewrite bind_perform.
  destruct (answer (page_goto baseUrl) s) as [e | []]; trivial.
  rewrite bind_randomDelay, bind_perform. cbv zeta.
  destruct (answer (fetch_login username password) _)
    as [e | [err | status success message [d |] | status]]; trivial;
    simpl loginData; simpl unreadable.
  - destruct (http_ok status), success; trivial. simpl.
    destruct (UserData.id d =? 0); reflexivity.
  - now destruct (http_ok status), success.
  - now destruct (http_ok status).
Qed.

Lemma establish_stages accountInfo d s :
  establish accountInfo d s
  = match answer context_cookies s with
    | inl e => (Threw e, after context_cookies s)
    | inr cookies =>
        match find (fun c => (fst c =? "session")%string) cookies with
        | None => (Returned None, after context_cookies s)
        | Some sessionCookie =>
            inSession accountInfo d sessionCookie (after context_cookies s)
        end
    end.
Proof.
  unfold establish. rewrite bind_perform.
  destruct (answer context_cookies s) as [e | cookies]; trivial.
  now destruct (find _ cookies).
Qed.

Lemma inSession_stages accountInfo d sessionCookie s :
  inSession accountInfo d sessionCookie s
  = match answer (fetch_sign_in (UserData.id d)) s with
    | inl e => (Threw e, after (fetch_sign_in (UserData.id d)) s)
    | inr signInResult =>
        let s1 := after (fetch_sign_in (UserData.id d)) s in
        if unreadable signInResult then (Threw null_read, s1)
        else
          match answer (fetch_self (UserData.id d)) s1 with
          | inl e => (Threw e, after (fetch_self (UserData.id d)) s1)
          | inr userInfoResult =>
              bind (resolveProfile accountInfo d userInfoResult)
                   (fun userData =>
                      ret (Some (Session.mk (snd sessionCookie)
                                   (String_ (UserData.id d)) userData)))
                   (after (fetch_self (UserData.id d)) s1)
          end
    end.
Proof.
  unfold inSession. rewrite bind_perform.
  destruct (answer (fetch_sign_in (UserData.id d)) s) as [e | r]; trivial.
  cbv zeta. unfold bind at 1.
  destruct r as [err | status success message data | status]; simpl;
    try destruct (http_ok status); simpl; trivial;
    rewrite bind_perform; now destruct (answer (fetch_self (UserData.id d)) _).
Qed.

Lemma resolveProfile_emits P accountInfo d userInfoResult :
  (forall R (c : call R) r, profileWork (kind_of c) = true -> P (Ev c r)) ->
  emits P (resolveProfile accountInfo d userInfoResult).
Proof.
  intros H.
  unfold resolveProfile, withProfile, settleBonus, fetchTokens, uploadSellTokens,
    addKeys.
  repeat first
    [ apply getTokens_emits; intros ?
    | apply createToken_emits; intros ?
    | apply manageTokens_emits; intros ? ?
    | apply supplementTokens_emits; intros ? ?
    | emits_step ];
    apply H; reflexivity.
Qed.

Lemma resolveProfile_plain accountInfo d userInfoResult s :
  profileFetched userInfoResult = false ->
  resolveProfile accountInfo d userInfoResult s
  = (if unreadable userInfoResult then Threw null_read else Returned d, s).
Proof.
  destruct userInfoResult as [err | status success message data | status]; trivial.
  - simpl. now intros ->.
  - simpl. now destruct (http_ok status).
Qed.

Lemma inSession_emits P accountInfo d sessionCookie :
  (forall R (c : call R) r, sessionWork (kind_of c) = true -> P (Ev c r)) ->
  emits P (inSession accountInfo d sessionCookie).
Proof.
  intros H. unfold inSession, signedIn.
  repeat first
    [ apply resolveProfile_emits; intros R c r Hk; apply H;
      destruct c; (discriminate || reflexivity)
    | emits_step ];
    apply H; reflexivity.
Qed.

Lemma establish_emits P accountInfo d :
  (forall r, P (Ev context_cookies r)) ->
  (forall R (c : call R) r, sessionWork (kind_of c) = true -> P (Ev c r)) ->
  emits P (establish accountInfo d).
Proof.
  intros Hc H. unfold establish.
  repeat first [ apply inSession_emits; assumption | emits_step ]; auto.
Qed.

Lemma cleanup_returns : returns cleanup.
Proof. unfold cleanup. apply returns_try_catch. intros e. apply returns_ret. Qed.

Lemma openPage_events s :
  exists t,
    trace (snd (openPage s)) = trace s ++ t
    /\ Forall (fun e => opening (event_kind e) = true) t
    /\ calls Launch t = 1%nat.
Proof.
  unfold openPage, bind, perform, assign. simpl.
  repeat match goal with
         | |- context [handle ?c ?w] =>
             destruct (handle c w) as [[? | []] ?]; simpl
         end;
    rewrite <- ?app_assoc; simpl;
    eexists; (split; [reflexivity |]); (split; [repeat constructor | reflexivity]).
Qed.

Lemma cleanup_emits :
  emits (fun e => closing (event_kind e) = true) cleanup.
Proof. unfold cleanup. repeat emits_step; reflexivity. Qed.

Lemma signIn_grows username password accountInfo s :
  exists t, trace (snd (signIn username password accountInfo s)) = trace s ++ t.
Proof.
  destruct (signIn_inert username password accountInfo s) as [t [Ht _]]. eauto.
Qed.

(** A run is the opening of the page, then [signIn] unless the opening
    raised, then the releases; what [signIn] returns is what the run
    returns, and what it raises becomes null. *)
Lemma loginAndGetSession_anatomy username password accountInfo s t :
  let run := loginAndGetSession username password accountInfo s in
  trace (snd run) = trace s ++ t ->
  exists t_open t_close,
    (Forall (fun e => opening (event_kind e) = true) t_open
     /\ calls Launch t_open = 1%nat)
    /\ Forall (fun e => closing (event_kind e) = true) t_close
    /\ ((fst run = Returned None /\ t = t_open ++ t_close)
        \/ exists s1 t_sign,
             trace (snd (signIn username password accountInfo s1)) = trace s1 ++ t_sign
             /\ t = t_open ++ t_sign ++ t_close
             /\ fst run
                = Returned match fst (signIn username password accountInfo s1) with
                           | Returned result => result
                           | Threw _ => None
                           end).
Proof.
  intros run. subst run.
  unfold loginAndGetSession, bind at 1, assign, try_finally, try_catch, loginBody, bind.
  set (s0 := mkState (world s) (trace s) (all_null (vars s))).
  destruct (openPage_events s0) as [t_open [Hopen Ho]].
  destruct (openPage s0) as [[[] | e] s1]; simpl in Hopen.
  - destruct (signIn_grows username password accountInfo s1) as [t_sign Hsign].
    destruct (signIn username password accountInfo s1) as [[result | e] s2] eqn:Esign;
      simpl in Hsign; unfold ret; simpl;
      destruct (cleanup_emits s2) as [t_close [Hclose Hc]];
      destruct (returns_eq cleanup_returns s2) as [[] Hret];
      rewrite Hret; simpl; rewrite Hclose, Hsign, Hopen, <- !app_assoc;
      intros Ht; apply app_inv_head in Ht; subst t;
      exists t_open, t_close; (split; [assumption |]); (split; [assumption |]);
      right; exists s1, t_sign; rewrite Esign; simpl; auto.
  - destruct (cleanup_emits s1) as [t_close [Hclose Hc]].
    destruct (returns_eq cleanup_returns s1) as [[] Hret].
    unfold ret. simpl. rewrite Hret. simpl. rewrite Hclose, Hopen, <- !app_assoc.
    intros Ht. apply app_inv_head in Ht. subst t.
    exists t_open, t_close. auto.
Qed.

Lemma opening_not_sessionWork k : opening k = true -> sessionWork k = false.
Proof. now destruct k. Qed.

Lemma closing_not_sessionWork k : closing k = true -> sessionWork k = false.
Proof. now destruct k. Qed.

Lemma sessionWork_profileWork k : sessionWork k = false -> profileWork k = false.
Proof. now destruct k. Qed.

Lemma Forall_kinds (P Q : kind -> bool) b b' t :
  (forall k, P k = b -> Q k = b') ->
  Forall (fun e => P (event_kind e) = b) t ->
  Forall (fun e => Q (event_kind e) = b') t.
Proof. intros H. apply Forall_impl. intros e. apply H. Qed.

Lemma bind_ret_trace A B (m : M A) (f : A -> B) s :
  trace (snd (bind m (fun a => ret (f a)) s)) = trace (snd (m s)).
Proof. unfold bind. now destruct (m s) as [[a | e] s']. Qed.

(** Turning an equation between traces into the list of new events. *)
Ltac new_events Ht :=
  cbn [fst snd] in Ht; rewrite ?trace_after in Ht; rewrite <- ?app_assoc in Ht;
  apply app_inv_head in Ht; simpl in Ht; subst.

(** X10. When the browser cannot be launched, the run returns null after
    that one call: nothing else is asked and, nothing having been acquired,
    nothing is closed. *)
Theorem launch_failure_returns_null username password accountInfo s e :
  answer chromium_launch s = inl e ->
  fst (loginAndGetSession username password accountInfo s) = Returned None
  /\ trace (snd (loginAndGetSession username password accountInfo s))
     = trace s ++ [Ev chromium_launch (inl e)].
Proof.
  unfold answer. intros H.
  unfold loginAndGetSession, bind, assign, try_finally, try_catch, loginBody,
    openPage, bind, perform. simpl.
  destruct (handle chromium_launch (world s)) as [r w]. simpl in H. subst r.
  simpl. split; reflexivity.
Qed.

(** Without an accepted login, or without a session cookie, [signIn] gives
    no session and does no session work. *)
Lemma signIn_unestablished username password accountInfo s t :
  trace (snd (signIn username password accountInfo s)) = trace s ++ t ->
  (forall r, In (Ev (fetch_login username password) (inr r)) t -> loginData r = None)
  \/ (forall cookies,
        In (Ev context_cookies (inr cookies)) t ->
        find (fun c => (fst c =? "session")%string) cookies = None) ->
  match fst (signIn username password accountInfo s) with
  | Returned result => result
  | Threw _ => None
  end = None
  /\ Forall (fun e => sessionWork (event_kind e) = false) t.
Proof.
  rewrite signIn_stages.
  destruct (answer (page_goto baseUrl) s) as [e | []] eqn:Egoto.
  { intros Ht _. new_events Ht. split; [reflexivity | repeat constructor]. }
  cbv zeta.
  destruct (answer (fetch_login username password) _) as [e | loginResult] eqn:Elogin.
  { intros Ht _. new_events Ht. split; [reflexivity | repeat constructor]. }
  destruct (loginData loginResult) as [d |] eqn:Edata.
  2: { intros Ht _. new_events Ht.
       split; [now destruct (unreadable loginResult) | repeat constructor]. }
  rewrite establish_stages.
  destruct (answer context_cookies _) as [e | cookies] eqn:Ecookies.
  { intros Ht _. new_events Ht. split; [reflexivity | repeat constructor]. }
  destruct (find _ cookies) as [sessionCookie |] eqn:Efind.
  2: { intros Ht _. new_events Ht. split; [reflexivity | repeat constructor]. }
  match goal with
  | |- context [inSession _ _ _ ?s4] =>
      destruct (@inSession_emits (fun _ => True) accountInfo d sessionCookie
                  (fun _ _ _ _ => I) s4) as [rest [Hrest _]]
  end.
  intros Ht Hnone. exfalso. rewrite Hrest in Ht. new_events Ht.
  rewrite Elogin, Ecookies in Hnone.
  destruct Hnone as [Hnone | Hnone].
  - specialize (Hnone loginResult). rewrite Edata in Hnone.
    discriminate Hnone. simpl. tauto.
  - specialize (Hnone cookies). rewrite Efind in Hnone.
    discriminate Hnone. simpl. tauto.
Qed.

(** X11. A run whose login is not accepted (an error, a non-success HTTP
    status, [success] false, no user id), or whose cookie store holds no
    cookie named [session], returns null and makes no reward, profile,
    transfer, token or inventory call. *)
Theorem no_session_without_login_and_cookie username password accountInfo s t :
  trace (snd (loginAndGetSession username password accountInfo s)) = trace s ++ t ->
  (forall r, In (Ev (fetch_login username password) (inr r)) t -> loginData r = None)
  \/ (forall cookies,
        In (Ev context_cookies (inr cookies)) t ->
        find (fun c => (fst c =? "session")%string) cookies = None) ->
  fst (loginAndGetSession username password accountInfo s) = Returned None
  /\ Forall (fun e => sessionWork (event_kind e) = false) t.
Proof.
  intros Ht Hnone.
  destruct (@loginAndGetSession_anatomy username password accountInfo s t Ht)
    as (t_open & t_close & [Hopen _] & Hclose & [[Hr ->] | (s1 & t_sign & Hsign & -> & Hr)]).
  - split; trivial. apply Forall_app. split.
    + revert Hopen. apply Forall_kinds, opening_not_sessionWork.
    + revert Hclose. apply Forall_kinds, closing_not_sessionWork.
  - destruct (@signIn_unestablished username password accountInfo s1 t_sign Hsign)
      as [Hnull Hquiet].
    { destruct Hnone as [H | H]; [left | right]; intros x Hin; apply H;
        apply in_or_app; right; apply in_or_app; now left. }
    rewrite Hr, Hnull. split; trivial.
    repeat (apply Forall_app; split); trivial.
    + revert Hopen. apply Forall_kinds, opening_not_sessionWork.
    + revert Hclose. apply Forall_kinds, closing_not_sessionWork.
Qed.

Lemma inSession_result accountInfo d sessionCookie s session :
  fst (inSession accountInfo d sessionCookie s) = Returned (Some session) ->
  Session.session session = snd sessionCookie
  /\ Session.apiUser session = String_ (UserData.id d).
Proof.
  rewrite inSession_stages.
  destruct (answer (fetch_sign_in (UserData.id d)) s) as [e | r];
    [discriminate |].
  cbv zeta. destruct (unreadable r); [discriminate |].
  destruct (answer (fetch_self (UserData.id d)) _) as [e | userInfoResult];
    [discriminate |].
  unfold bind.
  destruct (resolveProfile accountInfo d userInfoResult _) as [[userData | e] s'];
    [| discriminate].
  simpl. now intros [= <-].
Qed.

Lemma signIn_session username password accountInfo s t session :
  trace (snd (signIn username password accountInfo s)) = trace s ++ t ->
  fst (signIn username password accountInfo s) = Returned (Some session) ->
  exists status message d cookies sessionCookie,
    In (Ev (fetch_login username password)
           (inr (Replied status true message (Some d)))) t
    /\ http_ok status = true
    /\ UserData.id d <> 0
    /\ In (Ev context_cookies (inr cookies)) t
    /\ find (fun c => (fst c =? "session")%string) cookies = Some sessionCookie
    /\ fst sessionCookie = "session"
    /\ Session.session session = snd sessionCookie
    /\ Session.apiUser session = String_ (UserData.id d).
Proof.
  rewrite signIn_stages.
  destruct (answer (page_goto baseUrl) s) as [e | []] eqn:Egoto;
    [intros _; discriminate |].
  cbv zeta.
  destruct (answer (fetch_login username password) _) as [e | loginResult] eqn:Elogin;
    [intros _; discriminate |].
  destruct (loginData loginResult) as [d |] eqn:Edata;
    [| intros _; destruct (unreadable loginResult); discriminate].
  rewrite establish_stages.
  destruct (answer context_cookies _) as [e | cookies] eqn:Ecookies;
    [intros _; discriminate |].
  destruct (find _ cookies) as [sessionCookie |] eqn:Efind;
    [| intros _; discriminate].
  match goal with
  | |- context [inSession _ _ _ ?s4] =>
      destruct (@inSession_emits (fun _ => True) accountInfo d sessionCookie
                  (fun _ _ _ _ => I) s4) as [rest [Hrest _]]
  end.
  intros Ht Hres. rewrite Hrest in Ht. new_events Ht.
  rewrite Elogin, Ecookies.
  apply inSession_result in Hres. destruct Hres as [Hs Ha].
  apply loginData_Some in Edata. destruct Edata as (status & message & -> & Hok & Hid).
  exists status, message, d, cookies, sessionCookie.
  repeat split; trivial; try (simpl; tauto).
  apply find_some in Efind. destruct Efind as [_ Hname].
  now apply String.eqb_eq in Hname.
Qed.

(** X12. A run that returns a session went through an accepted login and
    found a cookie named [session]: the session it returns carries the value
    of that cookie and, as [apiUser], the id of the logged-in user as a
    string. *)
Theorem session_comes_from_login_and_cookie username password accountInfo s t session :
  trace (snd (loginAndGetSession username password accountInfo s)) = trace s ++ t ->
  fst (loginAndGetSession username password accountInfo s) = Returned (Some session) ->
  exists status message d cookies sessionCookie,
    In (Ev (fetch_login username password)
           (inr (Replied status true message (Some d)))) t
    /\ http_ok status = true
    /\ UserData.id d <> 0
    /\ In (Ev context_cookies (inr cookies)) t
    /\ find (fun c => (fst c =? "session")%string) cookies = Some sessionCookie
    /\ fst sessionCookie = "session"
    /\ Session.session session = snd sessionCookie
    /\ Session.apiUser session = String_ (UserData.id d).
Proof.
  intros Ht Hres.
  destruct (@loginAndGetSession_anatomy username password accountInfo s t Ht)
    as (t_open & t_close & [Hopen _] & Hclose & [[Hr ->] | (s1 & t_sign & Hsign & -> & Hr)]).
  - rewrite Hr in Hres. discriminate.
  - rewrite Hr in Hres.
    destruct (fst (signIn username password accountInfo s1)) as [result | e] eqn:Efst;
      [| discriminate].
    injection Hres as ->.
    destruct (@signIn_session username password accountInfo s1 t_sign session Hsign Efst)
      as (status & message & d & cookies & sessionCookie & H1 & H2 & H3 & H4 & H5).
    exists status, message, d, cookies, sessionCookie.
    repeat split; try apply H5; trivial;
      apply in_or_app; right; apply in_or_app; now left.
Qed.

Lemma calls_none k t :
  Forall (fun e => kind_eqb (event_kind e) k = false) t ->
  calls k t = 0%nat /\ resolutions k t = 0%nat.
Proof.
  unfold calls, resolutions.
  induction 1 as [| e t He _ [IH1 IH2]]; [split; reflexivity |].
  simpl. rewrite He. simpl. auto.
Qed.

Lemma signInAnswer_SignIn e r :
  signInAnswer e = Some r -> kind_eqb (event_kind e) SignIn = true.
Proof. destruct e as [R c r']. now destruct c. Qed.

Lemma rewardRead_SignIn e : rewardRead e = true -> kind_eqb (event_kind e) SignIn = true.
Proof.
  unfold rewardRead. destruct (signInAnswer e) as [r |] eqn:E; [| discriminate].
  intros _. eapply signInAnswer_SignIn, E.
Qed.

Lemma no_signIn_answers (P : kind -> bool) t r :
  (forall k, P k = true -> kind_eqb k SignIn = false) ->
  Forall (fun e => P (event_kind e) = true) t ->
  ~ In (Some r) (map signInAnswer t).
Proof.
  intros HP H. induction H as [| e t He _ IH]; [intros [] |].
  intros [E | Hin]; [| now apply IH].
  apply signInAnswer_SignIn in E. apply HP in He. congruence.
Qed.

Lemma filter_rewardRead_app t t' :
  List.length (filter rewardRead (t ++ t'))
  = (List.length (filter rewardRead t) + List.length (filter rewardRead t'))%nat.
Proof. now rewrite filter_app, length_app. Qed.

Lemma no_reward_calls (P : kind -> bool) t :
  (forall k, P k = true -> kind_eqb k Self = false /\ kind_eqb k SignIn = false) ->
  Forall (fun e => P (event_kind e) = true) t ->
  calls Self t = 0%nat /\ calls SignIn t = 0%nat
  /\ List.length (filter rewardRead t) = 0%nat.
Proof.
  intros HP H.
  assert (H1 : Forall (fun e => kind_eqb (event_kind e) Self = false) t)
    by (revert H; apply Forall_impl; intros e He; now apply HP).
  assert (H2 : Forall (fun e => kind_eqb (event_kind e) SignIn = false) t)
    by (revert H; apply Forall_impl; intros e He; now apply HP).
  assert (H3 : List.length (filter rewardRead t) = 0%nat).
  { clear H H1. induction H2 as [| e t He _ IH]; trivial. simpl.
    destruct (rewardRead e) eqn:E; trivial.
    apply rewardRead_SignIn in E. congruence. }
  apply calls_none in H1, H2. tauto.
Qed.

Lemma inSession_reward_profile accountInfo d sessionCookie s t :
  trace (snd (inSession accountInfo d sessionCookie s)) = trace s ++ t ->
  calls Self t = List.length (filter rewardRead t) /\ (calls SignIn t <= 1)%nat.
Proof.
  rewrite inSession_stages.
  destruct (answer (fetch_sign_in (UserData.id d)) s) as [e | r] eqn:Esign.
  { intros Ht. new_events Ht. rewrite Esign. split; [reflexivity | unfold calls; simpl; lia]. }
  cbv zeta. destruct (unreadable r) eqn:Eread.
  { intros Ht. new_events Ht. rewrite Esign. unfold rewardRead. simpl. rewrite Eread.
    split; [reflexivity | unfold calls; simpl; lia]. }
  destruct (answer (fetch_self (UserData.id d)) _) as [e | userInfoResult] eqn:Eself.
  { intros Ht. new_events Ht. rewrite Esign. unfold rewardRead. simpl. rewrite Eread.
    split; [reflexivity | unfold calls; simpl; lia]. }
  rewrite bind_ret_trace.
  match goal with
  | |- context [resolveProfile _ _ _ ?s2] =>
      destruct (@resolveProfile_emits (fun e => profileWork (event_kind e) = true)
                  accountInfo d userInfoResult (fun _ _ _ H => H) s2)
        as [rest [Hrest Hkinds]]
  end.
  intros Ht. rewrite Hrest in Ht. new_events Ht. rewrite Esign.
  apply (no_reward_calls profileWork) in Hkinds; [| now destruct k].
  destruct Hkinds as (H1 & H2 & H3).
  change (?a :: ?b :: rest) with ([a; b] ++ rest).
  rewrite !calls_app, filter_rewardRead_app, H1, H2, H3.
  unfold rewardRead. simpl. rewrite Eread.
  split; [reflexivity | unfold calls; simpl; lia].
Qed.

Lemma signIn_reward_profile username password accountInfo s t :
  trace (snd (signIn username password accountInfo s)) = trace s ++ t ->
  calls Self t = List.length (filter rewardRead t) /\ (calls SignIn t <= 1)%nat.
Proof.
  rewrite signIn_stages.
  destruct (answer (page_goto baseUrl) s) as [e | []] eqn:Egoto.
  { intros Ht. new_events Ht. split; [reflexivity | unfold calls; simpl; lia]. }
  cbv zeta.
  destruct (answer (fetch_login username password) _) as [e | loginResult] eqn:Elogin.
  { intros Ht. new_events Ht. split; [reflexivity | unfold calls; simpl; lia]. }
  destruct (loginData loginResult) as [d |] eqn:Edata.
  2: { intros Ht. new_events Ht. split; [reflexivity | unfold calls; simpl; lia]. }
  rewrite establish_stages.
  destruct (answer context_cookies _) as [e | cookies] eqn:Ecookies.
  { intros Ht. new_events Ht. split; [reflexivity | unfold calls; simpl; lia]. }
  destruct (find _ cookies) as [sessionCookie |] eqn:Efind.
  2: { intros Ht. new_events Ht. split; [reflexivity | unfold calls; simpl; lia]. }
  match goal with
  | |- context [inSession _ _ _ ?s4] =>
      destruct (@inSession_emits (fun _ => True) accountInfo d sessionCookie
                  (fun _ _ _ _ => I) s4) as [rest [Hrest _]];
      pose proof (@inSession_reward_profile accountInfo d sessionCookie s4 rest Hrest)
        as [Hself Hsign]
  end.
  intros Ht. rewrite Hrest in Ht. new_events Ht.
  change (?a :: ?b :: ?c :: ?d :: rest) with ([a; b; c; d] ++ rest).
  rewrite !calls_app, filter_rewardRead_app, Hself.
  split; [reflexivity | unfold calls in *; simpl; lia].
Qed.

(** A reward answer that cannot be read ends [inSession] with an error. *)
Lemma inSession_lost accountInfo d sessionCookie s t r :
  trace (snd (inSession accountInfo d sessionCookie s)) = trace s ++ t ->
  In (Some r) (map signInAnswer t) ->
  unreadable r = true ->
  (exists e, fst (inSession accountInfo d sessionCookie s) = Threw e)
  /\ calls Self t = 0%nat.
Proof.
  rewrite inSession_stages.
  destruct (answer (fetch_sign_in (UserData.id d)) s) as [e | r0] eqn:Esign.
  { intros Ht Hin _. new_events Ht. rewrite Esign in Hin. simpl in Hin.
    destruct Hin as [E | []]. discriminate. }
  cbv zeta. destruct (unreadable r0) eqn:Eread.
  { intros Ht _ _. new_events Ht. split; [now exists null_read | reflexivity]. }
  destruct (answer (fetch_self (UserData.id d)) _) as [e | userInfoResult] eqn:Eself.
  { intros Ht Hin Hr. new_events Ht. rewrite Esign, Eself in Hin. simpl in Hin.
    destruct Hin as [[= <-] | [E | []]]; congruence. }
  rewrite bind_ret_trace.
  match goal with
  | |- context [resolveProfile _ _ _ ?s2] =>
      destruct (@resolveProfile_emits (fun e => profileWork (event_kind e) = true)
                  accountInfo d userInfoResult (fun _ _ _ H => H) s2)
        as [rest [Hrest Hkinds]]
  end.
  intros Ht Hin Hr. exfalso. rewrite Hrest in Ht. new_events Ht.
  rewrite Esign, Eself in Hin. simpl in Hin.
  destruct Hin as [[= <-] | [E | Hin]]; try congruence.
  revert Hin. apply (no_signIn_answers profileWork); trivial. now destruct k.
Qed.

Lemma signIn_lost username password accountInfo s t r :
  trace (snd (signIn username password accountInfo s)) = trace s ++ t ->
  In (Some r) (map signInAnswer t) ->
  unreadable r = true ->
  match fst (signIn username password accountInfo s) with
  | Returned result => result
  | Threw _ => None
  end = None
  /\ calls Self t = 0%nat.
Proof.
  rewrite signIn_stages.
  destruct (answer (page_goto baseUrl) s) as [e | []] eqn:Egoto.
  { intros Ht Hin _. new_events Ht. now split. }
  cbv zeta.
  destruct (answer (fetch_login username password) _) as [e | loginResult] eqn:Elogin.
  { intros Ht Hin _. new_events Ht. now split. }
  destruct (loginData loginResult) as [d |] eqn:Edata.
  2: { intros Ht Hin _. new_events Ht.
       split; [now destruct (unreadable loginResult) | reflexivity]. }
  rewrite establish_stages.
  destruct (answer context_cookies _) as [e | cookies] eqn:Ecookies.
  { intros Ht Hin _. new_events Ht. now split. }
  destruct (find _ cookies) as [sessionCookie |] eqn:Efind.
  2: { intros Ht Hin _. new_events Ht. now split. }
  match goal with
  | |- context [inSession _ _ _ ?s4] =>
      destruct (@inSession_emits (fun _ => True) accountInfo d sessionCookie
                  (fun _ _ _ _ => I) s4) as [rest [Hrest _]];
      pose proof (@inSession_lost accountInfo d sessionCookie s4 rest r Hrest) as Hlost
  end.
  intros Ht Hin Hr. rewrite Hrest in Ht. new_events Ht.
  rewrite Egoto, Elogin, Ecookies in Hin. simpl in Hin.
  destruct Hin as [E | [E | [E | [E | Hin]]]]; try discriminate.
  destruct (Hlost Hin Hr) as [[e ->] Hself].
  split; [reflexivity |].
  change (?a :: ?b :: ?c :: ?d :: rest) with ([a; b; c; d] ++ rest).
  rewrite calls_app, Hself. reflexivity.
Qed.

(** X13. Whether the reward was granted does not decide what follows: in
    every run the profile is read exactly as many times as the reward call
    came back with an answer other than an HTTP success whose body is
    [null] (granted, refused, an HTTP error, an error in the page), and the
    reward call is made at most once. An HTTP success whose body is [null]
    ends the run: reading it raises, the profile is not read and the run
    returns null. *)
Theorem profile_read_follows_reward_call username password accountInfo s t :
  trace (snd (loginAndGetSession username password accountInfo s)) = trace s ++ t ->
  calls Self t = List.length (filter rewardRead t)
  /\ (calls SignIn t <= 1)%nat
  /\ (forall apiUser r,
        In (Ev (fetch_sign_in apiUser) (inr r)) t ->
        unreadable r = true ->
        fst (loginAndGetSession username password accountInfo s) = Returned None
        /\ calls Self t = 0%nat).
Proof.
  intros Ht.
  destruct (@loginAndGetSession_anatomy username password accountInfo s t Ht)
    as (t_open & t_close & [Hopen _] & Hclose & H).
  pose proof (fun r => @no_signIn_answers opening t_open r
                         (fun k Hk => ltac:(now destruct k)) Hopen) as Hno.
  pose proof (fun r => @no_signIn_answers closing t_close r
                         (fun k Hk => ltac:(now destruct k)) Hclose) as Hnc.
  apply (no_reward_calls opening) in Hopen; [| now destruct k].
  apply (no_reward_calls closing) in Hclose; [| now destruct k].
  destruct Hopen as (Ho1 & Ho2 & Ho3). destruct Hclose as (Hc1 & Hc2 & Hc3).
  destruct H as [[Hnull ->] | (s1 & t_sign & Hsign & -> & Hres)].
  - rewrite !calls_app, filter_rewardRead_app, Ho1, Ho2, Ho3, Hc1, Hc2, Hc3.
    split; [reflexivity |]. split; [lia |]. intros _ _ _ _. now split.
  - pose proof (@signIn_reward_profile username password accountInfo s1 t_sign Hsign)
      as [Hs1 Hs2].
    rewrite !calls_app, !filter_rewardRead_app, Ho1, Ho2, Ho3, Hc1, Hc2, Hc3, Hs1.
    split; [lia |]. split; [lia |].
    intros apiUser r Hin Hr.
    apply (in_map signInAnswer) in Hin. rewrite !map_app in Hin. simpl in Hin.
    apply in_app_or in Hin. destruct Hin as [Hin | Hin]; [now apply Hno in Hin |].
    apply in_app_or in Hin. destruct Hin as [Hin | Hin]; [| now apply Hnc in Hin].
    destruct (@signIn_lost username password accountInfo s1 t_sign r Hsign Hin Hr)
      as [Hnull Hself].
    split; [rewrite Hres; now f_equal | lia].
Qed.

Lemma app_self_nil A (l r : list A) : l = l ++ r -> r = [].
Proof. intros H. apply (app_inv_head l). now rewrite app_nil_r. Qed.

Lemma inSession_fallback accountInfo d sessionCookie s t session :
  trace (snd (inSession accountInfo d sessionCookie s)) = trace s ++ t ->
  fst (inSession accountInfo d sessionCookie s) = Returned (Some session) ->
  (forall apiUser r, In (Ev (fetch_self apiUser) (inr r)) t -> profileFetched r = false) ->
  Session.userInfo session = d
  /\ Forall (fun e => profileWork (event_kind e) = false) t.
Proof.
  rewrite inSession_stages.
  destruct (answer (fetch_sign_in (UserData.id d)) s) as [e | r] eqn:Esign;
    [intros _; discriminate |].
  cbv zeta. destruct (unreadable r); [intros _; discriminate |].
  destruct (answer (fetch_self (UserData.id d)) _) as [e | userInfoResult] eqn:Eself;
    [intros _; discriminate |].
  rewrite bind_ret_trace.
  match goal with
  | |- context [resolveProfile _ _ _ ?s2] =>
      destruct (@resolveProfile_emits (fun _ => True) accountInfo d userInfoResult
                  (fun _ _ _ _ => I) s2) as [rest [Hrest _]]
  end.
  intros Ht Hres Hpf. pose proof Hrest as Hrest'.
  rewrite Hrest in Ht. new_events Ht.
  assert (Hplain : profileFetched userInfoResult = false).
  { apply (Hpf (UserData.id d)). rewrite Eself. simpl. tauto. }
  unfold bind in Hres. rewrite resolveProfile_plain in Hres, Hrest' by assumption.
  destruct (unreadable userInfoResult); [discriminate |].
  simpl in Hres. cbn [snd] in Hrest'. injection Hres as <-.
  apply app_self_nil in Hrest'. subst rest.
  split; [reflexivity | repeat constructor].
Qed.

Lemma signIn_fallback username password accountInfo s t session :
  trace (snd (signIn username password accountInfo s)) = trace s ++ t ->
  fst (signIn username password accountInfo s) = Returned (Some session) ->
  (forall apiUser r, In (Ev (fetch_self apiUser) (inr r)) t -> profileFetched r = false) ->
  (exists status message,
      In (Ev (fetch_login username password)
             (inr (Replied status true message (Some (Session.userInfo session))))) t)
  /\ Forall (fun e => profileWork (event_kind e) = false) t.
Proof.
  rewrite signIn_stages.
  destruct (answer (page_goto baseUrl) s) as [e | []] eqn:Egoto;
    [intros _; discriminate |].
  cbv zeta.
  destruct (answer (fetch_login username password) _) as [e | loginResult] eqn:Elogin;
    [intros _; discriminate |].
  destruct (loginData loginResult) as [d |] eqn:Edata;
    [| intros _; destruct (unreadable loginResult); discriminate].
  rewrite establish_stages.
  destruct (answer context_cookies _) as [e | cookies] eqn:Ecookies;
    [intros _; discriminate |].
  destruct (find _ cookies) as [sessionCookie |] eqn:Efind;
    [| intros _; discriminate].
  match goal with
  | |- context [inSession _ _ _ ?s4] =>
      destruct (@inSession_emits (fun _ => True) accountInfo d sessionCookie
                  (fun _ _ _ _ => I) s4) as [rest [Hrest _]]
  end.
  intros Ht Hres Hpf. pose proof Hrest as Hrest'.
  rewrite Hrest in Ht. new_events Ht. rewrite Elogin.
  destruct (@inSession_fallback accountInfo d sessionCookie _ rest session Hrest' Hres)
    as [Hinfo Hquiet].
  { intros apiUser r Hin. apply (Hpf apiUser). simpl. tauto. }
  apply loginData_Some in Edata. destruct Edata as (status & message & -> & _ & _).
  split.
  - exists status, message. rewrite Hinfo. simpl. tauto.
  - repeat (constructor; [reflexivity |]). exact Hquiet.
Qed.

(** X14. When the profile cannot be read (an error in the page, a non-success
    HTTP status or [success] false), a run that returns a session returns the
    user object of the login answer as [userInfo], and makes no transfer,
    token or inventory call. *)
Theorem unread_profile_falls_back_to_login_data
    username password accountInfo s t session :
  trace (snd (loginAndGetSession username password accountInfo s)) = trace s ++ t ->
  fst (loginAndGetSession username password accountInfo s) = Returned (Some session) ->
  (forall apiUser r, In (Ev (fetch_self apiUser) (inr r)) t -> profileFetched r = false) ->
  (exists status message,
      In (Ev (fetch_login username password)
             (inr (Replied status true message (Some (Session.userInfo session))))) t)
  /\ Forall (fun e => profileWork (event_kind e) = false) t.
Proof.
  intros Ht Hres Hpf.
  destruct (@loginAndGetSession_anatomy username password accountInfo s t Ht)
    as (t_open & t_close & [Hopen _] & Hclose & [[Hr ->] | (s1 & t_sign & Hsign & -> & Hr)]).
  - rewrite Hr in Hres. discriminate.
  - rewrite Hr in Hres.
    destruct (fst (signIn username password accountInfo s1)) as [result | e] eqn:Efst;
      [| discriminate].
    injection Hres as ->.
    destruct (@signIn_fallback username password accountInfo s1 t_sign session Hsign Efst)
      as [(status & message & Hin) Hquiet].
    { intros apiUser r Hin. apply (Hpf apiUser).
      apply in_or_app; right; apply in_or_app; now left. }
    split.
    + exists status, message. apply in_or_app; right; apply in_or_app; now left.
    + repeat (apply Forall_app; split); trivial.
      * revert Hopen. apply Forall_kinds. intros k Hk.
        now apply sessionWork_profileWork, opening_not_sessionWork.
      * revert Hclose. apply Forall_kinds. intros k Hk.
        now apply sessionWork_profileWork, closing_not_sessionWork.
Qed.

(* ----------------------------------------------------------------- *)
(** *** The stages of a run without declared intents *)










(* ----------------------------------------------------------------- *)
(** *** The batch *)

Lemma no_launch (P : kind -> bool) t :
  (forall k, P k = true -> kind_eqb k Launch = false) ->
  Forall (fun e => P (event_kind e) = true) t ->
  calls Launch t = 0%nat.
Proof.
  intros HP H. apply calls_none.
  revert H. apply Forall_impl. intros e He. now apply HP.
Qed.

Lemma inert_no_launch t : Forall inert t -> calls Launch t = 0%nat.
Proof.
  intros H. apply calls_none. revert H. apply Forall_impl.
  intros [R c r]. destruct c; simpl; trivial; contradiction.
Qed.

Lemma loginAndGetSession_launches_once username password accountInfo s t :
  trace (snd (loginAndGetSession username password accountInfo s)) = trace s ++ t ->
  calls Launch t = 1%nat.
Proof.
  intros Ht.
  destruct (@loginAndGetSession_anatomy username password accountInfo s t Ht)
    as (t_open & t_close & [_ Hlaunch] & Hclose & H).
  apply (no_launch closing) in Hclose; [| now destruct k].
  destruct H as [[_ ->] | (s1 & t_sign & Hsign & -> & _)].
  - rewrite calls_app, Hlaunch, Hclose. reflexivity.
  - destruct (signIn_inert username password accountInfo s1) as [t' [Ht' Hinert]].
    rewrite Ht' in Hsign. apply app_inv_head in Hsign. subst t'.
    apply inert_no_launch in Hinert.
    rewrite !calls_app, Hlaunch, Hclose, Hinert. reflexivity.
Qed.

Lemma loginAndGetSession_no_pacing username password accountInfo :
  emits (fun e => pacing e = false)
        (loginAndGetSession username password accountInfo).
Proof.
  unfold loginAndGetSession, loginBody, openPage, signIn, signedIn, cleanup,
    withProfile,
    settleBonus, fetchTokens, uploadSellTokens, addKeys.
  emits_run; reflexivity.
Qed.

Lemma filter_none A (f : A -> bool) l :
  Forall (fun a => f a = false) l -> filter f l = [].
Proof.
  induction 1 as [| a l Ha _ IH]; trivial. simpl. now rewrite Ha.
Qed.

Lemma pace_events (rest : list Account.t) s :
  exists t,
    trace (snd (when (0 <? Z.of_nat (List.length rest)) (randomDelay 5000 7000) s))
    = trace s ++ t
    /\ calls Launch t = 0%nat
    /\ List.length (filter pacing t)
       = match rest with [] => 0%nat | _ :: _ => 1%nat end.
Proof.
  rewrite positive_length. destruct rest as [| next rest]; simpl when.
  - exists []. simpl. now rewrite app_nil_r.
  - rewrite randomDelay_eq. eexists. split; [apply trace_after |].
    split; reflexivity.
Qed.

Lemma processFrom_counts accounts results s :
  exists t,
    trace (snd (processFrom accounts results s)) = trace s ++ t
    /\ calls Launch t = List.length accounts
    /\ List.length (filter pacing t) = Nat.pred (List.length accounts).
Proof.
  revert results s.
  induction accounts as [| account rest IH]; intros results s.
  - exists []. simpl. now rewrite app_nil_r.
  - destruct (processFrom_step account rest results s) as (result & s1 & Hrun & Hstep).
    rewrite Hstep.
    destruct (loginAndGetSession_no_pacing (Account.username account)
                (Account.password account) None s) as [t_run [Ht_run Hquiet]].
    pose proof (@loginAndGetSession_launches_once _ _ _ _ _ Ht_run) as Hlaunch.
    rewrite Hrun in Ht_run. simpl in Ht_run.
    apply filter_none in Hquiet.
    destruct (pace_events rest s1) as (t_pace & Ht_pace & Hl_pace & Hp_pace).
    destruct (IH (results ++ [resultEntry account result])
                 (snd (when (0 <? Z.of_nat (List.length rest))
                            (randomDelay 5000 7000) s1)))
      as (t & Ht & Hl & Hp).
    exists (t_run ++ t_pace ++ t).
    rewrite Ht, Ht_pace, Ht_run, <- !app_assoc.
    split; [reflexivity |].
    rewrite !calls_app, !filter_app, !length_app, Hquiet, Hlaunch, Hl, Hp,
      Hl_pace, Hp_pace.
    destruct rest; simpl; split; lia.
Qed.

(** X15. A batch launches one browser for each account, whatever the earlier
    accounts gave, and pauses between two consecutive accounts only: for n
    accounts there are n launches and n - 1 pacing delays, none for an empty
    batch. *)
Theorem processAccounts_launches_and_pauses accounts s t :
  trace (snd (processAccounts accounts s)) = trace s ++ t ->
  calls Launch t = List.length accounts
  /\ List.length (filter pacing t) = Nat.pred (List.length accounts).
Proof.
  intros Ht. unfold processAccounts in Ht.
  destruct (processFrom_counts accounts [] s) as (t' & Ht' & Hcounts).
  rewrite Ht' in Ht. apply app_inv_head in Ht. now subst t'.
Qed.

(* ----------------------------------------------------------------- *)
(** *** The upload, end to end *)

Lemma dollars_nonneg remain_quota :
  (forall q, remain_quota = Some q -> 0 <= q) ->
  (0 <= dollars remain_quota)%Q.
Proof.
  intros H. unfold dollars, truthy_num.
  destruct remain_quota as [q |]; [| apply Qle_refl].
  specialize (H q eq_refl). simpl.
  destruct (Z.eqb_spec q 0); simpl; [apply Qle_refl |].
  unfold Qle, Qdiv, Qmult, Qinv, inject_Z, quota_unit. simpl. lia.
Qed.

Lemma keysToUpload_well_formed info tokens pendings :
  (forall token, In token tokens -> (length_ (Token.key token) <= 500)%nat) ->
  (forall pending q,
      In pending pendings -> Pending.remain_quota pending = Some q -> 0 <= q) ->
  (forall pending,
      In pending pendings ->
      (length_ (str_or (AccountInfo.username info) EmptyString
                      ++ "&" ++ Pending.name pending) <= 200)%nat) ->
  Forall WellFormedKey (keysToUpload info tokens pendings).
Proof.
  intros Hkey Hquota Hname. unfold keysToUpload.
  induction pendings as [| pending pendings IH]; [constructor |].
  simpl. apply Forall_app. split.
  - unfold keysFor.
    destruct (find (sameName pending) tokens) as [matched |] eqn:Efind;
      [| constructor].
    destruct (String.eqb_spec (Token.key matched) EmptyString) as [E | E];
      simpl; constructor; [| constructor].
    apply find_some in Efind. destruct Efind as [Hin _].
    unfold WellFormedKey, keyRecord. simpl. repeat split.
    + exact E.
    + now apply Hkey.
    + tauto.
    + intros q [= <-]. apply dollars_nonneg. intros q' Hq.
      apply (Hquota pending q'); [now left | exact Hq].
    + intros n [= <-]. apply Hname. now left.
  - apply IH.
    + intros p q Hin. apply Hquota. now right.
    + intros p Hin. apply Hname. now right.
Qed.

(** X16. The publisher and the inventory client together: when the batch of
    matched records has 1 to 100 records, the live keys have a [.length] of
    at most 500, the candidates' remain_quota are not negative and the source
    names have a [.length] of at most 200, the upload asks the inventory
    exactly once, with every matched record, in candidate order. *)
Theorem upload_reaches_the_inventory info tokens pendings s :
  (1 <= List.length (keysToUpload info tokens pendings) <= 100)%nat ->
  (forall token, In token tokens -> (length_ (Token.key token) <= 500)%nat) ->
  (forall pending q,
      In pending pendings -> Pending.remain_quota pending = Some q -> 0 <= q) ->
  (forall pending,
      In pending pendings ->
      (length_ (str_or (AccountInfo.username info) EmptyString
                      ++ "&" ++ Pending.name pending) <= 200)%nat) ->
  uploadSellTokens (Some info) tokens pendings s
  = bind (perform (post_addKeys (map requestKey (keysToUpload info tokens pendings))))
         (fun _ => ret tt) s.
Proof.
  intros Hn Hkey Hquota Hname.
  pose proof (keysToUpload_well_formed info tokens pendings Hkey Hquota Hname) as Hall.
  rewrite uploadSellTokens_eq.
  destruct (keysToUpload info tokens pendings) as [| key keys] eqn:E;
    [simpl in Hn; lia |].
  unfold bind at 1, addKeys.
  destruct (Z.eqb_spec (Z.of_nat (List.length (key :: keys))) 0) as [E0 | _]; [lia |].
  destruct (Z.ltb_spec 100 (Z.of_nat (List.length (key :: keys)))) as [E1 | _]; [lia |].
  now rewrite validateKeys_all.
Qed.

(* ----------------------------------------------------------------- *)
(** *** Reading answers off a trace *)

Lemma In_loginAnswer username password r t :
  In (Ev (fetch_login username password) (inr r)) t -> In (Some r) (map loginAnswer t).
Proof. intros H. apply (in_map loginAnswer) in H. exact H. Qed.

Lemma In_selfAnswer apiUser r t :
  In (Ev (fetch_self apiUser) (inr r)) t -> In (Some r) (map selfAnswer t).
Proof. intros H. apply (in_map selfAnswer) in H. exact H. Qed.

(* ----------------------------------------------------------------- *)
(** *** A page that is closed already *)

Lemma cleanup_page_gone s :
  exists t,
    trace (snd (cleanup s)) = trace s ++ t
    /\ (resolutions Launch t = 0%nat /\ resolutions NewContext t = 0%nat)
    /\ (Forall pageGone t ->
        calls PageClose t = 0%nat
        /\ calls ContextClose t = Nat.b2n (context (vars s))
        /\ calls BrowserClose t = Nat.b2n (browser (vars s))).
Proof.
  unfold cleanup, try_catch, bind, read_vars, when, perform. simpl.
  destruct (vars s) as [[|] [|] [|]]; simpl;
    repeat match goal with
           | |- context [handle ?c ?w] =>
               destruct (handle c w) as [[? | [|]] ?]; simpl
           | |- context [handle ?c ?w] =>
               destruct (handle c w) as [[? | []] ?]; simpl
           end;
    rewrite <- ?app_assoc; simpl;
    first [ exists []; split; [now rewrite app_nil_r |]
          | eexists; split; [reflexivity |] ];
    (split; [now repeat split |]);
    intros Hs;
    repeat match goal with
           | H : Forall pageGone (_ :: _) |- _ => inversion H; subst; clear H
           end;
    unfold pageGone in *; simpl in *; try discriminate; repeat split.
Qed.

(** X17. When the page reports itself closed at the end of a run, the run
    does not close it again; the context and the browser it acquired are
    still closed, once each, provided their closes go through. *)
Theorem closed_page_is_not_closed_again username password accountInfo s t :
  trace (snd (loginAndGetSession username password accountInfo s)) = trace s ++ t ->
  Forall pageGone t ->
  calls PageClose t = 0%nat
  /\ calls ContextClose t = resolutions NewContext t
  /\ calls BrowserClose t = resolutions Launch t.
Proof.
  intros Ht Hgone. revert Ht.
  unfold loginAndGetSession, bind, assign, try_finally. simpl.
  set (s0 := mkState (world s) (trace s) (all_null (vars s))).
  destruct (@caught_body_opened username password accountInfo s0 eq_refl)
    as [tb [Htb Hb]].
  destruct (try_catch (loginBody username password accountInfo)
                      (fun _ => ret None) s0) as [o sb].
  simpl in Htb, Hb.
  destruct (cleanup_page_gone sb) as [tc [Htc [Hopen Hclose]]].
  assert (Hsc : trace (snd (let (o', s'') := cleanup sb in
                            match o' with
                            | Returned _ => (o, s'')
                            | Threw e => (@Threw (option Session.t) e, s'')
                            end)) = trace (snd (cleanup sb)))
    by (destruct (cleanup sb) as [[[] | e] sc]; reflexivity).
  intros Ht.
  match type of Ht with ?l = _ => match type of Hsc with ?l' = _ =>
    change l with l' in Ht end end.
  rewrite Hsc, Htc, Htb, <- app_assoc in Ht. simpl in Ht.
  apply app_inv_head in Ht. subst t.
  apply Forall_app in Hgone. destruct Hgone as [_ Hgone].
  destruct (Hclose Hgone) as (Hp & Hc & Hbr).
  rewrite !calls_app, !resolutions_app, Hp, Hc, Hbr.
  destruct Hopen as (-> & ->).
  destruct Hb as (-> & -> & _ & -> & -> & ->).
  rewrite !Nat.add_0_r. repeat split.
Qed.

End Program.

Arguments ret {World A} a _.
Arguments initial {World} w.
Arguments Refused {Body} result.
Arguments Posted {Body} url body.
Arguments Request {R} c.

(* ================================================================= *)
(** ** The program on the scripted world *)

(** *** Runs that show where the code departs from a claim *)

(** C1, counterexample. The first fetch finds no token, the fallback token
    is created and the second fetch returns a token with id 1; the account
    declares a supplement of 50 for id 1. A live token with the intent's id
    exists when the run ends, and no update was requested. *)
Lemma supplement_skipped_after_fallback :
  let run :=
    loginAndGetSession Mock.handle "alice" "pw" (Some (Mock.shop [Mock.topUp]))
      (initial (Mock.script [[]; [Mock.sale]] true false)) in
  needsSupplement Mock.topUp = true
  /\ sameId Mock.topUp Mock.sale = true
  /\ calls TokenCreate (trace (snd run)) = 1%nat
  /\ (exists session,
         fst run = Returned (Some session)
         /\ UserData.tokens (Session.userInfo session) = Some [tokenView Mock.sale])
  /\ updates (trace (snd run)) = [].
Proof.
  vm_compute. split; [reflexivity |]. split; [reflexivity |].
  split; [reflexivity |]. split; [| reflexivity].
  eexists. split; reflexivity.
Qed.


(** C3, counterexample. The fetched list is empty and the creation of the
    fallback token is refused: one creation was requested, and the run
    returns a profile without any token list. *)
Lemma failed_fallback_surfaces_no_token :
  let run :=
    loginAndGetSession Mock.handle "alice" "pw" None
      (initial (Mock.script [] false false)) in
  map (fun made => snd (fst made)) (creations (trace (snd run)))
  = [requestBody fallbackConfig]
  /\ exists session,
       fst run = Returned (Some session)
       /\ UserData.tokens (Session.userInfo session) = None.
Proof.
  vm_compute. split; [reflexivity |].
  eexists. split; reflexivity.
Qed.

(** C5, counterexample. A creation intent without a name is created under
    the name [dw], not [default]. *)
Lemma unnamed_token_is_called_dw :
  let run :=
    manageTokens Mock.handle "7" [Mock.unnamed] []
      (initial (Mock.script [] true false)) in
  withoutId Mock.unnamed = true
  /\ TokenConfig.name Mock.unnamed = None
  /\ map (fun made => RequestBody.name (snd (fst made))) (creations (trace (snd run)))
     = ["dw"]
  /\ "dw" <> "default".
Proof. vm_compute. repeat split. discriminate. Qed.

(** C7, counterexample. Two live tokens bear the candidate's name; the
    second has a key, the first has none: nothing is forwarded. *)
Lemma keyless_namesake_hides_keyed_token :
  let tokens := [Mock.blank; Mock.sale] in
  (exists token,
      In token tokens
      /\ Token.name token = Pending.name Mock.candidate
      /\ Token.key token <> EmptyString)
  /\ keysToUpload (Mock.shop []) tokens [Mock.candidate] = [].
Proof.
  split; [| reflexivity].
  exists Mock.sale. split; [right; left; reflexivity |].
  split; [reflexivity | discriminate].
Qed.

(** C8, counterexample. 101 resale tokens are created in one run and all
    match: the 101 records go to [addKeys] in a single call, which refuses
    them, and the inventory is never asked. *)
Lemma oversized_batch_goes_in_one_call :
  let pendings := repeat Mock.candidate 101 in
  let keys := keysToUpload (Mock.shop []) [Mock.sale] pendings in
  let s := initial (Mock.script [[Mock.sale]] true false) in
  let run :=
    loginAndGetSession Mock.handle "alice" "pw"
      (Some (Mock.shop (repeat Mock.forSale 101))) s in
  List.length keys = 101%nat
  /\ uploadSellTokens Mock.handle (Some (Mock.shop [])) [Mock.sale] pendings s
     = bind (addKeys Mock.handle keys) (fun _ => ret tt) s
  /\ addKeys Mock.handle keys s = (Returned (rejected "单次最多添加100个Key"), s)
  /\ calls TokenCreate (trace (snd run)) = 101%nat
  /\ postings (trace (snd run)) = [].
Proof. vm_compute. repeat split. Qed.

(** C10, at the failing input. Every call of the run succeeds but
    [page.close()], which raises: the run still returns its session, the
    page close was tried once, and neither the context nor the browser the
    run had acquired is closed, the two closes sharing the [try] of the one
    that raised. *)
Lemma failed_page_close_leaks_browser :
  let run :=
    loginAndGetSession Mock.handle "alice" "pw" None
      (initial (Mock.script [[Mock.sale]] true true)) in
  let t := trace (snd run) in
  (exists session, fst run = Returned (Some session))
  /\ resolutions Launch t = 1%nat
  /\ resolutions NewContext t = 1%nat
  /\ resolutions NewPage t = 1%nat
  /\ calls PageClose t = 1%nat
  /\ calls ContextClose t = 0%nat
  /\ calls BrowserClose t = 0%nat.
Proof.
  vm_compute. split; [| repeat split].
  eexists. reflexivity.
Qed.

(** *** Runs that instantiate the theorems *)

(** The example of the specification: a token with 100 left and a supplement
    of 50; 150 is requested, the gateway confirms 149, and 149 is what the
    list holds afterwards. *)
Lemma supplement_only_on_nonempty_list_witness :
  let s := initial (Mock.script [] true false) in
  let request :=
    fetch_token_update "7" (Token.set_remain_quota (Some 150) Mock.sale) in
  exists live',
    supplementTokens Mock.handle "7" [Mock.topUp] [Mock.sale] s
    = (Returned live', after Mock.handle request s)
    /\ List.length live' = 1%nat
    /\ find (sameId Mock.topUp) live'
       = Some (Token.set_remain_quota (Some 149) Mock.sale).
Proof.
  exact (proj2 (proj2 (proj2 (proj2 (proj2
           (supplement_only_on_nonempty_list Mock.handle "7" None
              (initial (Mock.script [] true false)))))))
           Mock.topUp 50 [Mock.sale] Mock.sale
           (initial (Mock.script [] true false)) eq_refl eq_refl eq_refl).
Defined.

Lemma fallback_creation_when_list_empty_witness :
  let s := initial (Mock.script [] false false) in
  let s1 := after Mock.handle (fetch_token_list "7") s in
  exists t,
    trace (snd (fetchTokens Mock.handle "7" None s)) = trace s1 ++ t
    /\ creations t
       = [("7", requestBody fallbackConfig,
           answer Mock.handle (fetch_token_create "7" (requestBody fallbackConfig)) s1)]
    /\ fst (fetchTokens Mock.handle "7" None s) = Returned [].
Proof.
  exact (proj1 (proj2
           (fallback_creation_when_list_empty Mock.handle "7" None
              (initial (Mock.script [] false false)))) eq_refl).
Defined.

Lemma creation_request_of_intent_witness :
  let s := initial (Mock.script [] true false) in
  withoutId Mock.forSale = true
  /\ exists body r t,
       trace (snd (manageTokens Mock.handle "7" [Mock.forSale] [] s))
       = trace s ++ Ev (fetch_token_create "7" body) r :: t
       /\ RequestBody.name body = "出售_x"
       /\ RequestBody.unlimited_quota body = None
       /\ RequestBody.remain_quota body = Some 500000.
Proof.
  split; [reflexivity |].
  exact (creation_request_of_intent Mock.handle "7" Mock.forSale [] []
           (initial (Mock.script [] true false)) eq_refl).
Defined.

(** The example of the specification: balance 1000 and bonus 200, with a
    transfer call that fails in the page. *)
Lemma settleBonus_folds_bonus_witness :
  let s := initial (Mock.script [] true false) in
  answer Mock.handle (fetch_aff_transfer "7" 200) s = inr (Failed "net::ERR_CONNECTION_RESET")
  /\ exists userData' s',
       settleBonus Mock.handle 7 Mock.alice s = (Returned userData', s')
       /\ s' = after Mock.handle (fetch_aff_transfer "7" 200) s
       /\ UserData.quota userData' = 1200
       /\ UserData.aff_quota userData' = Some 0
       /\ userData' = UserData.set_quotas (UserData.quota userData') (Some 0) Mock.alice.
Proof.
  split; [reflexivity |].
  exact (settleBonus_folds_bonus Mock.handle 7 Mock.alice
           (bonus := 200) (r := Failed "net::ERR_CONNECTION_RESET")
           (initial (Mock.script [] true false)) eq_refl eq_refl eq_refl).
Defined.

Lemma resale_record_of_candidate_witness :
  let tokens := [Token.mk 3 "sk-zzz" "other" false 0 None []] in
  (forall t, In t tokens -> Token.name t <> Pending.name Mock.candidate)
  /\ keysFor (Mock.shop []) tokens Mock.candidate = [].
Proof.
  assert (H : forall t,
             In t [Token.mk 3 "sk-zzz" "other" false 0 None []] ->
             Token.name t <> Pending.name Mock.candidate)
    by (intros t [<- | []]; discriminate).
  split; [exact H |].
  exact (proj1 (proj2
           (resale_record_of_candidate Mock.handle (Mock.shop [])
              [Token.mk 3 "sk-zzz" "other" false 0 None []] Mock.candidate)) H).
Defined.

Lemma inventory_requests_within_limit_witness :
  let keys := keysToUpload (Mock.shop []) [Mock.sale] (repeat Mock.candidate 101) in
  let s := initial (Mock.script [] true false) in
  (100 < List.length keys)%nat
  /\ addKeys Mock.handle keys s = (Returned (rejected "单次最多添加100个Key"), s).
Proof.
  assert (H : (100 < List.length
                       (keysToUpload (Mock.shop []) [Mock.sale]
                          (repeat Mock.candidate 101)))%nat)
    by (vm_compute; lia).
  split; [exact H |].
  exact (proj1 (proj2
           (inventory_requests_within_limit Mock.handle "alice" "pw" None))
           _ (initial (Mock.script [] true false)) H).
Defined.

Lemma resources_released_once_witness :
  let s := initial (Mock.script [[Mock.sale]] true false) in
  let run := loginAndGetSession Mock.handle "alice" "pw" None s in
  let t := trace (snd run) in
  (trace (snd run) = trace s ++ t /\ Forall smooth t)
  /\ (exists result, fst run = Returned result)
  /\ (calls PageClose t = resolutions NewPage t /\ (calls PageClose t <= 1)%nat)
  /\ (calls ContextClose t = resolutions NewContext t
      /\ (calls ContextClose t <= 1)%nat)
  /\ (calls BrowserClose t = resolutions Launch t
      /\ (calls BrowserClose t <= 1)%nat).
Proof.
  intros s run t.
  assert (Ht : trace (snd run) = trace s ++ t) by (vm_compute; reflexivity).
  assert (Hs : Forall smooth t) by (vm_compute; repeat constructor).
  split; [split; [exact Ht | exact Hs] |].
  split.
  - exact (proj1 (@resources_released_once Mock.t Mock.handle "alice" "pw" None s)).
  - exact (proj2 (@resources_released_once Mock.t Mock.handle "alice" "pw" None s)
             t Ht Hs).
Defined.


(** The example of the specification: three accounts, the second fails to
    log in; three entries come back, only the second unsuccessful. *)
Lemma batch_isolation_example :
  let run :=
    processAccounts Mock.handle Mock.trio
      (initial (Mock.script [[Mock.sale]; [Mock.sale]] true false)) in
  exists results,
    fst run = Returned results
    /\ map RunResult.username results = ["alice"; "bob"; "carol"]
    /\ map RunResult.success results = [true; false; true]
    /\ calls Launch (trace (snd run)) = 3%nat.
Proof.
  vm_compute. eexists. repeat split.
Qed.

(** *** Runs that instantiate the further properties *)

(** [length_] counts what [.length] counts: one for a character of the
    basic plane, whatever its bytes, and two for a character beyond it. *)
Lemma length_of_wide_name :
  length_ Mock.wideName = 67%nat
  /\ String.length Mock.wideName = 201%nat
  /\ length_ "sk-abc" = 6%nat
  /\ length_ "😀" = 2%nat.
Proof. repeat split. Qed.

Lemma goodKey_well_formed : WellFormedKey Mock.goodKey.
Proof.
  unfold WellFormedKey. simpl. repeat split.
  - discriminate.
  - lia.
  - tauto.
  - intros q [= <-]. unfold Qle. simpl. lia.
  - intros n [= <-]. simpl. lia.
Qed.

Lemma oddKey_ill_formed : ~ WellFormedKey Mock.oddKey.
Proof.
  intros (_ & _ & [H | [H | [H | []]]] & _); discriminate.
Qed.

Lemma addKeys_posts_well_formed_batch_witness :
  let s := initial (Mock.script [] true false) in
  let keys := [Mock.goodKey] in
  ((1 <= List.length keys <= 100)%nat /\ Forall WellFormedKey keys)
  /\ addKeys Mock.handle keys s
     = perform Mock.handle (post_addKeys (map requestKey keys)) s.
Proof.
  intros s keys.
  assert (Hn : (1 <= List.length keys <= 100)%nat) by (simpl; lia).
  assert (Hall : Forall WellFormedKey keys)
    by (constructor; [exact goodKey_well_formed | constructor]).
  split; [split; assumption |].
  exact (@addKeys_posts_well_formed_batch Mock.t Mock.handle keys s Hn Hall).
Defined.

Lemma addKeys_posts_only_well_formed_witness :
  let s := initial (Mock.script [] true false) in
  let keys := [Mock.goodKey] in
  let batch := map requestKey keys in
  let t := [Ev (post_addKeys batch) (inr (ApiResult.mk true EmptyString))] in
  (trace (snd (addKeys Mock.handle keys s)) = trace s ++ t /\ In batch (postings t))
  /\ batch = map requestKey keys
  /\ (1 <= List.length keys <= 100)%nat
  /\ Forall WellFormedKey keys.
Proof.
  intros s keys batch t.
  assert (Ht : trace (snd (addKeys Mock.handle keys s)) = trace s ++ t)
    by (vm_compute; reflexivity).
  assert (Hin : In batch (postings t)) by (left; reflexivity).
  split; [split; assumption |].
  exact (@addKeys_posts_only_well_formed Mock.t Mock.handle keys s t batch Ht Hin).
Defined.

Lemma addKeys_names_first_bad_key_witness :
  let s := initial (Mock.script [] true false) in
  (Forall WellFormedKey [Mock.goodKey] /\ ~ WellFormedKey Mock.oddKey
   /\ (List.length ([Mock.goodKey] ++ Mock.oddKey :: []) <= 100)%nat)
  /\ exists reason,
       addKeys Mock.handle ([Mock.goodKey] ++ Mock.oddKey :: []) s
       = (Returned
            (rejected ("第" ++ String_ (Z.of_nat (List.length [Mock.goodKey]) + 1)
                       ++ "个Key" ++ reason)%string),
          s).
Proof.
  intros s.
  assert (Hgood : Forall WellFormedKey [Mock.goodKey])
    by (constructor; [exact goodKey_well_formed | constructor]).
  assert (Hn : (List.length ([Mock.goodKey] ++ Mock.oddKey :: []) <= 100)%nat)
    by (simpl; lia).
  split; [split; [exact Hgood | split; [exact oddKey_ill_formed | exact Hn]] |].
  exact (@addKeys_names_first_bad_key Mock.t Mock.handle [Mock.goodKey] Mock.oddKey
           [] s Hgood oddKey_ill_formed Hn).
Defined.

Lemma addKey_posts_iff_well_formed_witness :
  (WellFormedKey Mock.goodKey /\ ~ WellFormedKey Mock.oddKey)
  /\ addKey Mock.goodKey = Posted "/ai-key-admin/addKey" (requestKey Mock.goodKey)
  /\ exists message, addKey Mock.oddKey = Refused (rejected message).
Proof.
  split; [split; [exact goodKey_well_formed | exact oddKey_ill_formed] |].
  split.
  - exact (proj1 (proj1 (@addKey_posts_iff_well_formed Mock.t Mock.handle Mock.goodKey))
             goodKey_well_formed).
  - exact (proj1 (proj2 (@addKey_posts_iff_well_formed Mock.t Mock.handle Mock.oddKey))
             oddKey_ill_formed).
Defined.

Lemma updateKeyInfo_posts_iff_witness :
  let updateData := [("remain_quota", JNum (17 # 2)); ("is_sold", JBool true)] in
  updateKeyInfo "507f1f77bcf86cd799439011" updateData
  = Posted "/ai-key-admin/updateKeyInfo" ("507f1f77bcf86cd799439011", updateData).
Proof.
  intros updateData.
  apply (proj2 (proj1 (updateKeyInfo_posts_iff "507f1f77bcf86cd799439011" updateData))).
  repeat split; try discriminate.
  - now left.
  - intros field [<- | [<- | [<- | []]]].
    + now left.
    + right. exists (17 # 2)%Q. split; [reflexivity |]. unfold Qle. simpl. lia.
    + now left.
Defined.

Lemma launch_failure_returns_null_witness :
  let s := initial Mock.stalled in
  let run := loginAndGetSession Mock.handle "alice" "pw" None s in
  answer Mock.handle chromium_launch s = inl "browser could not start"
  /\ fst run = Returned None
  /\ trace (snd run) = trace s ++ [Ev chromium_launch (inl "browser could not start")].
Proof.
  intros s run. split; [reflexivity |].
  exact (@launch_failure_returns_null Mock.t Mock.handle "alice" "pw" None s
           "browser could not start" eq_refl).
Defined.

Lemma no_session_without_login_and_cookie_witness :
  let s := initial (Mock.script [] true false) in
  let run := loginAndGetSession Mock.handle "bob" "pw" None s in
  let t := trace (snd run) in
  (trace (snd run) = trace s ++ t
   /\ forall r, In (Ev (fetch_login "bob" "pw") (inr r)) t -> loginData r = None)
  /\ fst run = Returned None
  /\ Forall (fun e => sessionWork (event_kind e) = false) t.
Proof.
  intros s run t.
  assert (Ht : trace (snd run) = trace s ++ t) by (vm_compute; reflexivity).
  assert (Hnone : forall r,
             In (Ev (fetch_login "bob" "pw") (inr r)) t -> loginData r = None).
  { intros r Hin. apply In_loginAnswer in Hin. vm_compute in Hin.
    repeat (destruct Hin as [Hin | Hin]; try discriminate Hin).
    - injection Hin as <-. reflexivity.
    - contradiction. }
  split; [split; assumption |].
  exact (@no_session_without_login_and_cookie Mock.t Mock.handle "bob" "pw" None s t
           Ht (or_introl Hnone)).
Defined.

Lemma session_comes_from_login_and_cookie_witness :
  let s := initial (Mock.script [[Mock.sale]] true false) in
  let run := loginAndGetSession Mock.handle "alice" "pw" None s in
  let t := trace (snd run) in
  let session :=
    Session.mk "s3cr3t" "7"
      (UserData.mk 7 "alice" "alice@example.org" 1200 0 "a1b2" (Some 0)
         (Some [tokenView Mock.sale])) in
  (trace (snd run) = trace s ++ t /\ fst run = Returned (Some session))
  /\ exists status message d cookies sessionCookie,
       In (Ev (fetch_login "alice" "pw")
              (inr (Replied status true message (Some d)))) t
       /\ http_ok status = true
       /\ UserData.id d <> 0
       /\ In (Ev context_cookies (inr cookies)) t
       /\ find (fun c => (fst c =? "session")%string) cookies = Some sessionCookie
       /\ fst sessionCookie = "session"
       /\ Session.session session = snd sessionCookie
       /\ Session.apiUser session = String_ (UserData.id d).
Proof.
  intros s run t session.
  assert (Ht : trace (snd run) = trace s ++ t) by (vm_compute; reflexivity).
  assert (Hres : fst run = Returned (Some session)) by (vm_compute; reflexivity).
  split; [split; assumption |].
  exact (@session_comes_from_login_and_cookie Mock.t Mock.handle "alice" "pw" None s t
           session Ht Hres).
Defined.

Lemma profile_read_follows_reward_call_witness :
  let s := initial (Mock.script [[Mock.sale]] true false) in
  let run := loginAndGetSession Mock.handle_null "alice" "pw" None s in
  let t := trace (snd run) in
  trace (snd run) = trace s ++ t
  /\ In (Ev (fetch_sign_in 7) (inr (Nulled 200))) t
  /\ calls Self t = List.length (filter rewardRead t)
  /\ (calls SignIn t <= 1)%nat
  /\ fst run = Returned None
  /\ calls Self t = 0%nat.
Proof.
  intros s run t.
  assert (Ht : trace (snd run) = trace s ++ t) by (vm_compute; reflexivity).
  assert (Hin : In (Ev (fetch_sign_in 7) (inr (Nulled 200))) t)
    by (vm_compute; repeat (try (left; reflexivity); right)).
  destruct (@profile_read_follows_reward_call Mock.t Mock.handle_null "alice" "pw"
              None s t Ht) as (Hreads & Honce & Hlost).
  destruct (Hlost 7 (Nulled 200) Hin eq_refl) as [Hnull Hself].
  exact (conj Ht (conj Hin (conj Hreads (conj Honce (conj Hnull Hself))))).
Defined.

Lemma unread_profile_falls_back_to_login_data_witness :
  let s := initial Mock.unread in
  let run := loginAndGetSession Mock.handle "alice" "pw" None s in
  let t := trace (snd run) in
  let session := Session.mk "s3cr3t" "7" Mock.alice in
  (trace (snd run) = trace s ++ t
   /\ fst run = Returned (Some session)
   /\ forall apiUser r,
        In (Ev (fetch_self apiUser) (inr r)) t -> profileFetched r = false)
  /\ (exists status message,
         In (Ev (fetch_login "alice" "pw")
                (inr (Replied status true message (Some (Session.userInfo session))))) t)
  /\ Forall (fun e => profileWork (event_kind e) = false) t.
Proof.
  intros s run t session.
  assert (Ht : trace (snd run) = trace s ++ t) by (vm_compute; reflexivity).
  assert (Hres : fst run = Returned (Some session)) by (vm_compute; reflexivity).
  assert (Hpf : forall apiUser r,
             In (Ev (fetch_self apiUser) (inr r)) t -> profileFetched r = false).
  { intros apiUser r Hin. apply In_selfAnswer in Hin. vm_compute in Hin.
    repeat (destruct Hin as [Hin | Hin]; try discriminate Hin).
    - injection Hin as <-. reflexivity.
    - contradiction. }
  split; [split; [exact Ht | split; [exact Hres | exact Hpf]] |].
  exact (@unread_profile_falls_back_to_login_data Mock.t Mock.handle "alice" "pw" None
           s t session Ht Hres Hpf).
Defined.

Lemma processAccounts_launches_and_pauses_witness :
  let s := initial (Mock.script [[Mock.sale]; [Mock.sale]] true false) in
  let t := trace (snd (processAccounts Mock.handle Mock.trio s)) in
  trace (snd (processAccounts Mock.handle Mock.trio s)) = trace s ++ t
  /\ calls Launch t = List.length Mock.trio
  /\ List.length (filter pacing t) = Nat.pred (List.length Mock.trio).
Proof.
  intros s t.
  assert (Ht : trace (snd (processAccounts Mock.handle Mock.trio s)) = trace s ++ t)
    by (vm_compute; reflexivity).
  split; [exact Ht |].
  exact (@processAccounts_launches_and_pauses Mock.t Mock.handle Mock.trio s t Ht).
Defined.

(** The source name has 72 characters and 208 bytes. *)
Lemma upload_reaches_the_inventory_witness :
  let s := initial (Mock.script [] true false) in
  let info := AccountInfo.mk (Some "acc-1") (Some Mock.wideName) (Some []) in
  let tokens := [Mock.sale] in
  let pendings := [Mock.candidate] in
  (1 <= List.length (keysToUpload info tokens pendings) <= 100)%nat
  /\ uploadSellTokens Mock.handle (Some info) tokens pendings s
     = bind (perform Mock.handle
               (post_addKeys (map requestKey (keysToUpload info tokens pendings))))
            (fun _ => ret tt) s.
Proof.
  intros s info tokens pendings.
  assert (Hn : (1 <= List.length (keysToUpload info tokens pendings) <= 100)%nat)
    by (vm_compute; lia).
  split; [exact Hn |].
  apply (@upload_reaches_the_inventory Mock.t Mock.handle info tokens pendings s Hn).
  - intros token [<- | []]. simpl. lia.
  - intros pending q [<- | []] [= <-]. lia.
  - intros pending [<- | []]. vm_compute. lia.
Defined.

Lemma closed_page_is_not_closed_again_witness :
  let s := initial (Mock.script [[Mock.sale]] true false) in
  let run := loginAndGetSession Mock.handle_closed "alice" "pw" None s in
  let t := trace (snd run) in
  (trace (snd run) = trace s ++ t /\ Forall pageGone t)
  /\ calls PageClose t = 0%nat
  /\ calls ContextClose t = resolutions NewContext t
  /\ calls BrowserClose t = resolutions Launch t.
Proof.
  intros s run t.
  assert (Ht : trace (snd run) = trace s ++ t) by (vm_compute; reflexivity).
  assert (Hgone : Forall pageGone t) by (vm_compute; repeat constructor).
  split; [split; assumption |].
  exact (@closed_page_is_not_closed_again Mock.t Mock.handle_closed "alice" "pw" None
           s t Ht Hgone).
Defined.
